(** * TrackToTrip: semantic location inference ([tracktotrip3/location.py])

    A shallow embedding of [location.py] and the properties of its
    proximity cache, centroid re-estimation, provider adapters, candidate
    merge and [Location] serialisation.

    Modelling choices.
    - Python floats (coordinates, distances, radii) are rationals [Q]; the
      properties below are about order, selection and state, not rounding.
    - Python [int]s (limits, status codes, cluster labels) are [Z].
    - A [dict] is an association list in insertion order: [from_cache] and
      the cluster loop both depend on the iteration order of the keys.
    - The two module-level caches and the network are explicit state: a
      [World] carries both caches and a trace of the cache look-ups and HTTP
      requests performed so far.
    - Exceptions are values of [exn]; a computation is a function
      [World -> World * (exn + A)], so that a raise keeps the state reached. *)

From Stdlib Require Import ZArith QArith Qabs List String Bool Lia Sorted
  Permutation.
Import ListNotations.

Set Implicit Arguments.

(* ================================================================== *)
(** * Python primitives *)

Module Py.

(** The exceptions the modelled code can raise. *)
Inductive exn : Type :=
| IndexError      (* [l[i]] with [i] out of range *)
| AttributeError  (* a method looked up on an object that lacks it *)
| PayloadError    (* [req.json()], [response['results']] or a field of a
                     result failing on a body of another shape *)
| LibraryError.   (* raised inside an external library call *)

(** Strict comparison of floats, [a < b]. *)
Definition Qlt_bool (a b : Q) : bool := negb (Qle_bool b a).

(** Truthiness of a string-or-None value: [None] and [''] are falsy. *)
Definition truthy_str (s : option string) : bool :=
  match s with
  | Some (String _ _) => true
  | _ => false
  end.

(** Truthiness of a list-or-None value: [None] and [[]] are falsy. *)
Definition truthy_list {A} (l : option (list A)) : bool :=
  match l with
  | Some (_ :: _) => true
  | _ => false
  end.

(** [len(l)] as an [int]. *)
Definition len {A} (l : list A) : Z := Z.of_nat (List.length l).

(** [l[:n]]: the first [n] items, or for a negative [n] all but the last
    [-n] items. *)
Definition slice_to {A} (l : list A) (n : Z) : list A :=
  if (0 <=? n)%Z then firstn (Z.to_nat n) l
  else firstn (Z.to_nat (len l + n)) l.

(** [l[0]]. *)
Definition item0 {A} (l : list A) : exn + A :=
  match l with
  | [] => inl IndexError
  | x :: _ => inr x
  end.

(** [sum(l)] and [numpy.mean(l)] over rationals: the exact mean. The
    rounding of float64 is not modelled, nor the [nan] numpy gives for an
    empty list (the quotient by zero is 0 here): the properties below say
    which points are averaged, not what the rounded value is. *)
Definition Qsum (l : list Q) : Q := fold_right Qplus 0%Q l.

Definition mean (l : list Q) : Q := (Qsum l / inject_Z (len l))%Q.

Section Sorted.
Variable A : Type.
Variable key : A -> Q.

(** [sorted(l, key=key)]: the sort is stable, so an item is placed in
    front of the first item already placed whose key is not smaller. *)
Fixpoint insert_by (x : A) (l : list A) : list A :=
  match l with
  | [] => [x]
  | y :: l' =>
      if Qle_bool (key x) (key y) then x :: y :: l'
      else y :: insert_by x l'
  end.

Fixpoint sorted (l : list A) : list A :=
  match l with
  | [] => []
  | x :: l' => insert_by x (sorted l')
  end.

(** Ascending by key. *)
Definition ascending : list A -> Prop :=
  Sorted (fun a b => (key a <= key b)%Q).
End Sorted.

Section Dict.
Variables K V : Type.
Variable eqb : K -> K -> bool.

(** A dict as the list of its items, oldest key first. *)
Definition dict : Type := list (K * V).

Definition keys (d : dict) : list K := map fst d.

(** [k in d] *)
Definition mem (k : K) (d : dict) : bool :=
  existsb (fun e => eqb (fst e) k) d.

(** [d[k]], [None] standing for the KeyError. *)
Fixpoint get (k : K) (d : dict) : option V :=
  match d with
  | [] => None
  | (k', v) :: d' => if eqb k' k then Some v else get k d'
  end.

(** [d[k] = v]: an existing key keeps its place (and its key object);
    a new key goes last. *)
Fixpoint set (k : K) (v : V) (d : dict) : dict :=
  match d with
  | [] => [(k, v)]
  | (k', v') :: d' =>
      if eqb k' k then (k', v) :: d' else (k', v') :: set k v d'
  end.

(** The items in front of key [k], all of them when [k] is not a key. *)
Fixpoint before (k : K) (d : dict) : dict :=
  match d with
  | [] => []
  | (k', v') :: d' => if eqb k' k then [] else (k', v') :: before k d'
  end.

(** The keys of a dict are pairwise different. *)
Fixpoint wf (d : dict) : bool :=
  match d with
  | [] => true
  | (k, _) :: d' => negb (mem k d') && wf d'
  end.
End Dict.

End Py.

Import Py.

(* ================================================================== *)
(** * Data model *)

(** [Point(lat, lon, time)] of [point.py]. *)
Record Point : Type := mkPoint {
  lat : Q;
  lon : Q;
  time : option Z
}.

(** Modelled from the spec: [Point.__eq__]/[__hash__] of [point.py], which
    decide when two cache keys are the same key; the spec's cache contract
    says a key is overwritten only when it is "structurally identical (by
    coordinate equality)". *)
Definition point_eqb (p q : Point) : bool :=
  Qeq_bool (lat p) (lat q) && Qeq_bool (lon p) (lon q).

(** Modelled from the spec: [Point.gen2arr] of [point.py], the point "in raw
    (lon, lat) coordinate order". *)
Definition gen2arr (p : Point) : Q * Q := (lon p, lat p).

Inductive SuggestionType : Type := KB | GOOGLE | FOURSQUARE.

(** A candidate: the dict [{'label', 'distance', 'types', 'suggestion_type'}].
    Knowledge-base candidates carry no ['types'] entry. *)
Record Candidate : Type := mkCandidate {
  label : string;
  distance : Q;
  types : option (list string);
  suggestion_type : SuggestionType
}.

(** A provider cache: candidates keyed by the point that was queried. *)
Definition Cache : Type := dict Point (list Candidate).

(* ================================================================== *)
(** * Proximity cache *)

Section ProximityCache.

(** [p.distance(q)] of [point.py], in meters. *)
Variable point_distance : Point -> Point -> Q.

(** The loop of [from_cache] over [list(cache.keys())]. *)
Fixpoint from_cache_scan (cache : Cache) (point : Point) (threshold : Q)
    (entries : list Point) : option (list Candidate) :=
  match entries with
  | [] => None
  | entry :: rest =>
      if Qlt_bool (point_distance point entry) threshold
      then get point_eqb entry cache
      else from_cache_scan cache point threshold rest
  end.

(** [from_cache(cache, point, threshold)]; falling off the loop returns
    [None]. *)
Definition from_cache (cache : Cache) (point : Point) (threshold : Q)
    : option (list Candidate) :=
  from_cache_scan cache point threshold (keys cache).

(** A key is within the threshold of a point when it is strictly closer. *)
Definition within (point : Point) (threshold : Q) (entry : Point) : Prop :=
  (point_distance point entry < threshold)%Q.

End ProximityCache.

(* ================================================================== *)
(** * Cluster engine *)

(** [compute_centroid(points)]: each point is a [[lon, lat]] pair, so
    [p[1]] is the latitude and [p[0]] the longitude. *)
Definition compute_centroid (points : list (Q * Q)) : Point :=
  let lats := map snd points in
  let lons := map fst points in
  mkPoint (mean lats) (mean lons) None.

(** [enumerate(l)] *)
Definition enumerate {A} (l : list A) : list (nat * A) :=
  combine (seq 0 (List.length l)) l.

(** The body of the grouping loop: [points[i]] is appended to the cluster
    of its label when the label is already a key ([get] finds it), and a
    label met for the first time opens a cluster. *)
Definition group_step (points : list (Q * Q))
    (acc : exn + dict Z (list (Q * Q))) (il : nat * Z)
    : exn + dict Z (list (Q * Q)) :=
  match acc with
  | inl e => inl e
  | inr clusters =>
      let (i, lbl) := il in
      match nth_error points i with
      | None => inl IndexError
      | Some p =>
          match get Z.eqb lbl clusters with
          | Some members => inr (set Z.eqb lbl (members ++ [p]) clusters)
          | None => inr (set Z.eqb lbl [p] clusters)
          end
      end
  end.

(** [clusters] after the loop over [enumerate(p_cluster.labels_)]. *)
Definition group_labels (points : list (Q * Q)) (labels : list Z)
    : exn + dict Z (list (Q * Q)) :=
  fold_left (group_step points) (enumerate labels) (inr []).

(** The variables of the selection loop; [biggest_centroid_l = None] is the
    initial [-float("inf")]. *)
Record Selection : Type := mkSelection {
  centroids : list Point;
  biggest_centroid_l : option Z;
  biggest_centroid : option Point
}.

(** [n >= biggest_centroid_l] *)
Definition ge_biggest (n : Z) (l : option Z) : bool :=
  match l with
  | None => true
  | Some m => (m <=? n)%Z
  end.

(** The body of the loop over [clusters.items()]. *)
Definition select_step (st : Selection) (item : Z * list (Q * Q))
    : Selection :=
  let (lbl, n_cluster) := item in
  let centroid := compute_centroid n_cluster in
  let cs := centroids st ++ [centroid] in
  if (0 <=? lbl)%Z && ge_biggest (len n_cluster) (biggest_centroid_l st)
  then mkSelection cs (Some (len n_cluster)) (Some centroid)
  else mkSelection cs (biggest_centroid_l st) (biggest_centroid st).

Definition select_biggest (clusters : dict Z (list (Q * Q))) : Selection :=
  fold_left select_step clusters (mkSelection [] None None).

Section ClusterEngine.

(** [estimate_meters_to_deg(meters, precision=6)] of [utils.py]. *)
Variable estimate_meters_to_deg : Q -> Q.

(** [DBSCAN(eps=eps, min_samples=min_samples).fit(points).labels_] of
    scikit-learn: one label per point, [-1] for noise; the library raises
    on parameters it rejects. *)
Variable DBSCAN : Q -> Z -> list (Q * Q) -> exn + list Z.

(** [update_location_centroid(point, cluster, max_distance, min_samples)];
    the second component of the result is the caller's list after
    [cluster.append(point)]. *)
Definition update_location_centroid (point : Point) (cluster : list Point)
    (max_distance : Q) (min_samples : Z) : exn + (Point * list Point) :=
  let cluster := cluster ++ [point] in
  let points := map gen2arr cluster in
  let eps := estimate_meters_to_deg max_distance in
  match DBSCAN eps min_samples points with
  | inl e => inl e
  | inr labels_ =>
      match group_labels points labels_ with
      | inl e => inl e
      | inr clusters =>
          let st := select_biggest clusters in
          let biggest :=
            match biggest_centroid st with
            | None => compute_centroid points
            | Some c => c
            end in
          inr (biggest, cluster)
      end
  end.

End ClusterEngine.

(* ================================================================== *)
(** * Location *)

Module Location.

(** What the [centroid] attribute holds: a [Point], or the JSON form of a
    point (a value of [J]) that was stored without being parsed. *)
Inductive position (J : Type) : Type :=
| PointObj (p : Point)
| JsonForm (j : J).

Arguments PointObj {J} p.
Arguments JsonForm {J} j.

(** [Location(label, position, other)] *)
Record t (J : Type) : Type := Location {
  label : string;
  centroid : position J;
  other : list Candidate
}.

(** The dict [{'label': .., 'position': .., 'other': ..}]. *)
Record json (J : Type) : Type := mkJson {
  json_label : string;
  json_position : J;
  json_other : list Candidate
}.

Section Methods.
Variable J : Type.

(** [Point.to_json] of [point.py]. *)
Variable Point_to_json : Point -> J.

(** [self.to_json()]; [self.centroid.to_json()] needs a [Point]. *)
Definition to_json (self : t J) : exn + json J :=
  match centroid self with
  | PointObj p => inr (mkJson (label self) (Point_to_json p) (other self))
  | JsonForm _ => inl AttributeError
  end.

(** [Location.from_json(json)] *)
Definition from_json (doc : json J) : t J :=
  Location (json_label doc) (JsonForm (json_position doc)) [].

(** [self.distance(position)] *)
Definition distance (point_distance : Point -> Point -> Q) (self : t J)
    (pos : Point) : exn + Q :=
  match centroid self with
  | PointObj p => inr (point_distance p pos)
  | JsonForm _ => inl AttributeError
  end.

End Methods.

End Location.

(* ================================================================== *)
(** * Provider adapters *)

Inductive Provider : Type := Google | Foursquare.

(** What a request embeds: [GOOGLE_PLACES_URL % (lat, lon, radius, key)],
    or [FOURSQUARE_URL % (lat, lon, radius)] with the key in the
    [Authorization] header. *)
Record Request : Type := mkRequest {
  rq_provider : Provider;
  rq_lat : Q;
  rq_lon : Q;
  rq_radius : Q;
  rq_key : string
}.

(** One entry of [response['results']] in the shape a provider documents. *)
Inductive Place : Type :=
| GooglePlace (name : string) (geo_lat geo_lng : Q) (place_types : list string)
| FoursquarePlace (name : string) (dist : Q) (categories : list string).

(** The response of [requests.get]: [results = None] is a body that is not a
    JSON document with a ['results'] list. *)
Record Response : Type := mkResponse {
  status_code : Z;
  results : option (list Place)
}.

(** What the process has done to its environment. *)
Inductive Event : Type :=
| EvCacheLookup (prov : Provider) (point : Point) (threshold : Q)
| EvGet (rq : Request).

(** The module-level state: [GG_CACHE], [FS_CACHE], and the trace. *)
Record World : Type := mkWorld {
  GG_CACHE : Cache;
  FS_CACHE : Cache;
  trace : list Event
}.

(** Computations over the world that may raise. *)
Definition M (A : Type) : Type := World -> World * (exn + A).

Definition ret {A} (a : A) : M A := fun w => (w, inr a).

Definition raise {A} (e : exn) : M A := fun w => (w, inl e).

Definition bind {A B} (m : M A) (k : A -> M B) : M B :=
  fun w =>
    match m w with
    | (w', inl e) => (w', inl e)
    | (w', inr a) => k a w'
    end.

Notation "x <- m ;; k" := (bind m (fun x => k))
  (at level 61, m at next level, right associativity).

Definition lift {A} (r : exn + A) : M A :=
  match r with
  | inl e => raise e
  | inr a => ret a
  end.

Definition cache_of (prov : Provider) (w : World) : Cache :=
  match prov with
  | Google => GG_CACHE w
  | Foursquare => FS_CACHE w
  end.

(** [google_insert_cache(point, values)] *)
Definition google_insert_cache (point : Point) (values : list Candidate)
    : M unit :=
  fun w =>
    (mkWorld (set point_eqb point values (GG_CACHE w)) (FS_CACHE w) (trace w),
     inr tt).

(** [foursquare_insert_cache(point, values)] *)
Definition foursquare_insert_cache (point : Point) (values : list Candidate)
    : M unit :=
  fun w =>
    (mkWorld (GG_CACHE w) (set point_eqb point values (FS_CACHE w)) (trace w),
     inr tt).

(** The string inside a truthy key. *)
Definition key_text (key : option string) : string :=
  match key with
  | Some k => k
  | None => EmptyString
  end.

(** The list a truthy look-up result is. *)
Definition hit_list (r : option (list Candidate)) : list Candidate :=
  match r with
  | Some l => l
  | None => []
  end.

(** The loop of [query_google] over [results]. *)
Fixpoint google_results (point_distance : Point -> Point -> Q) (point : Point)
    (rs : list Place) : exn + list Candidate :=
  match rs with
  | [] => inr []
  | GooglePlace name la ln tys :: rest =>
      match google_results point_distance point rest with
      | inl e => inl e
      | inr cs =>
          inr (mkCandidate name (point_distance (mkPoint la ln None) point)
                 (Some tys) GOOGLE :: cs)
      end
  | FoursquarePlace _ _ _ :: _ => inl PayloadError
  end.

(** The loop of [query_foursquare] over [results]. *)
Fixpoint foursquare_results (rs : list Place) : exn + list Candidate :=
  match rs with
  | [] => inr []
  | FoursquarePlace name d cats :: rest =>
      match foursquare_results rest with
      | inl e => inl e
      | inr cs => inr (mkCandidate name d (Some cats) FOURSQUARE :: cs)
      end
  | GooglePlace _ _ _ _ :: _ => inl PayloadError
  end.

Section Providers.

Variable point_distance : Point -> Point -> Q.

(** [requests.get]: the response may depend on everything done so far. *)
Variable requests_get : list Event -> Request -> Response.

(** [from_cache(GG_CACHE | FS_CACHE, point, threshold)], traced. *)
Definition cache_lookup (prov : Provider) (point : Point) (threshold : Q)
    : M (option (list Candidate)) :=
  fun w =>
    (mkWorld (GG_CACHE w) (FS_CACHE w)
       (trace w ++ [EvCacheLookup prov point threshold]),
     inr (from_cache point_distance (cache_of prov w) point threshold)).

(** [requests.get(url, ...)], traced. *)
Definition http_get (rq : Request) : M Response :=
  fun w =>
    (mkWorld (GG_CACHE w) (FS_CACHE w) (trace w ++ [EvGet rq]),
     inr (requests_get (trace w) rq)).

(** [query_foursquare(point, max_distance, key)] *)
Definition query_foursquare (point : Point) (max_distance : Q)
    (key : option string) : M (list Candidate) :=
  if negb (truthy_str key) then ret []
  else
    hit <- cache_lookup Foursquare point max_distance ;;
    if truthy_list hit then
      again <- cache_lookup Foursquare point max_distance ;;
      ret (hit_list again)
    else
      req <- http_get (mkRequest Foursquare (lat point) (lon point)
                         max_distance (key_text key)) ;;
      if negb (status_code req =? 200)%Z then ret []
      else
        match results req with
        | None => raise PayloadError
        | Some rs =>
            result <- lift (foursquare_results rs) ;;
            _ <- foursquare_insert_cache point result ;;
            ret result
        end.

(** [query_google(point, max_distance, key)] *)
Definition query_google (point : Point) (max_distance : Q)
    (key : option string) : M (list Candidate) :=
  if negb (truthy_str key) then ret []
  else
    hit <- cache_lookup Google point max_distance ;;
    if truthy_list hit then
      again <- cache_lookup Google point max_distance ;;
      ret (hit_list again)
    else
      req <- http_get (mkRequest Google (lat point) (lon point)
                         max_distance (key_text key)) ;;
      if negb (status_code req =? 200)%Z then ret []
      else
        match results req with
        | None => raise PayloadError
        | Some rs =>
            final_results <- lift (google_results point_distance point rs) ;;
            _ <- google_insert_cache point final_results ;;
            ret final_results
        end.

(** Either adapter, its cache insertion and its result loop, by provider. *)
Definition query (prov : Provider)
    : Point -> Q -> option string -> M (list Candidate) :=
  match prov with
  | Google => query_google
  | Foursquare => query_foursquare
  end.

Definition insert_cache (prov : Provider)
    : Point -> list Candidate -> M unit :=
  match prov with
  | Google => google_insert_cache
  | Foursquare => foursquare_insert_cache
  end.

Definition normalise (prov : Provider) (point : Point) (rs : list Place)
    : exn + list Candidate :=
  match prov with
  | Google => google_results point_distance point rs
  | Foursquare => foursquare_results rs
  end.

(** The request an adapter issues. *)
Definition request_of (prov : Provider) (point : Point) (max_distance : Q)
    (key : option string) : Request :=
  mkRequest prov (lat point) (lon point) max_distance (key_text key).

End Providers.

(* ================================================================== *)
(** * Location resolver *)

Section Resolver.

Variable point_distance : Point -> Point -> Q.
Variable requests_get : list Event -> Request -> Response.

(** The type of the third, ignored component of a knowledge-base row, and
    the type of a point's JSON form. *)
Variables Extra J : Type.

(** The candidate built from one row [(label, centroid, _)] of the
    knowledge base. *)
Definition kb_candidate (point : Point) (row : string * Point * Extra)
    : Candidate :=
  let '(lbl, centroid, _) := row in
  mkCandidate lbl (point_distance centroid point) None KB.

(** [locations] after the knowledge-base query. *)
Definition kb_locations (point : Point)
    (location_query : option (Point -> Q -> list (string * Point * Extra)))
    (max_distance : Q) : list Candidate :=
  match location_query with
  | None => []
  | Some query => map (kb_candidate point) (query point max_distance)
  end.

(** [api_locations] after the two guarded provider calls, Google first. *)
Definition api_locations_of (point : Point) (max_distance : Q)
    (use_google : bool) (google_key : option string)
    (use_foursquare : bool) (foursquare_key : option string)
    : M (list Candidate) :=
  google_locs <-
    (if use_google && truthy_str google_key
     then query_google point_distance requests_get point max_distance
            google_key
     else ret []) ;;
  foursquare_locs <-
    (if use_foursquare && truthy_str foursquare_key
     then query_foursquare point_distance requests_get point max_distance
            foursquare_key
     else ret []) ;;
  ret (google_locs ++ foursquare_locs).

(** [infer_location(point, location_query, max_distance, use_google,
    google_key, use_foursquare, foursquare_key, limit)] *)
Definition infer_location (point : Point)
    (location_query : option (Point -> Q -> list (string * Point * Extra)))
    (max_distance : Q)
    (use_google : bool) (google_key : option string)
    (use_foursquare : bool) (foursquare_key : option string)
    (limit : Z) : M (Location.t J) :=
  let locations := kb_locations point location_query max_distance in
  api_locations <-
    (if (len locations <=? limit)%Z
     then api_locations_of point max_distance use_google google_key
            use_foursquare foursquare_key
     else ret []) ;;
  let api_locations :=
    if (0 <? len api_locations)%Z then sorted distance api_locations
    else api_locations in
  if (0 <? len locations)%Z then
    let locations := sorted distance locations in
    let locations := slice_to (locations ++ api_locations) limit in
    first <- lift (item0 locations) ;;
    ret (Location.Location (label first) (Location.PointObj point) locations)
  else
    ret (Location.Location "#?" (Location.PointObj point) api_locations).

End Resolver.

Arguments infer_location point_distance requests_get {Extra J} point
  location_query max_distance use_google google_key use_foursquare
  foursquare_key limit _.

(* ================================================================== *)
(** * Vocabulary for stating properties *)

(** The points that [labels] gives the label [l], in the order of
    [points]. *)
Definition labelled (l : Z) (labels : list Z) (points : list (Q * Q))
    : list (Q * Q) :=
  map snd (filter (fun lp => (fst lp =? l)%Z) (combine labels points)).

(** The ['suggestion_type'] an adapter writes into its candidates. *)
Definition tag (prov : Provider) : SuggestionType :=
  match prov with
  | Google => GOOGLE
  | Foursquare => FOURSQUARE
  end.

(** Every candidate held in a cache carries the tag of the cache's
    provider. *)
Definition cache_tagged (prov : Provider) (cache : Cache) : Prop :=
  Forall (fun e => Forall (fun c => suggestion_type c = tag prov) (snd e))
    cache.

(** What the selection loop has established after the clusters [done]:
    nothing is selected and all of them are noise, or the selected centroid
    is that of a non-noise cluster among them that none of the non-noise
    ones outnumbers. *)
Definition selection_inv (done : dict Z (list (Q * Q))) (st : Selection)
    : Prop :=
  match biggest_centroid st with
  | None =>
      biggest_centroid_l st = None
      /\ Forall (fun e => (fst e < 0)%Z) done
  | Some c =>
      exists l members,
        In (l, members) done
        /\ (0 <= l)%Z
        /\ biggest_centroid_l st = Some (len members)
        /\ c = compute_centroid members
        /\ Forall (fun e => (0 <= fst e)%Z -> (len (snd e) <= len members)%Z)
             done
  end.

(** Both caches have pairwise different keys. *)
Definition caches_wf (w : World) : Prop :=
  wf point_eqb (GG_CACHE w) = true /\ wf point_eqb (FS_CACHE w) = true.

(** The HTTP requests among the events of a trace. *)
Definition requests_in (evs : list Event) : list Request :=
  flat_map (fun ev => match ev with EvGet rq => [rq] | _ => [] end) evs.

(* ================================================================== *)
(** * A concrete environment for evaluating the model *)

Module Example.

(** A planar stand-in for [Point.distance]: about 100 km per degree, along
    the axes. *)
Definition flat_distance (p q : Point) : Q :=
  (100000 * (Qabs (lat p - lat q) + Qabs (lon p - lon q)))%Q.

Definition origin : Point := mkPoint 0 0 None.

(** The point [m] meters north of [origin] under [flat_distance]. *)
Definition north (m : Z) : Point := mkPoint (m # 100000) 0 None.

Definition cand (l : string) (m : Z) (ty : SuggestionType) : Candidate :=
  mkCandidate l (inject_Z m) (match ty with KB => None | _ => Some [] end) ty.

Definition empty_world : World := mkWorld [] [] [].

(** About 100 km per degree, as [flat_distance] has it. *)
Definition meters_to_deg (meters : Q) : Q := (meters / 100000)%Q.

(** Two visits one meter apart at the origin, two more one meter apart a
    degree away to the north-east. *)
Definition a1 : Point := mkPoint 0 0 None.
Definition a2 : Point := mkPoint (1 # 100000) 0 None.
Definition b1 : Point := mkPoint 1 1 None.
Definition b2 : Point := mkPoint (100001 # 100000) 1 None.

(** The labels density clustering gives the four visits [a1; a2; b1; b2]
    for a radius of 10 m and [min_samples = 2]: each pair is a cluster. *)
Definition dbscan_pairs (_ : Q) (_ : Z) (_ : list (Q * Q)) : exn + list Z :=
  inr [0; 0; 1; 1]%Z.

(** Clustering in which no point has enough neighbours: all noise. *)
Definition dbscan_noise (_ : Q) (_ : Z) (points : list (Q * Q))
    : exn + list Z :=
  inr (repeat (-1)%Z (List.length points)).

(** A knowledge base with two places, 50 m and 10 m north of [origin]. *)
Definition knowledge_base (_ : Point) (_ : Q) : list (string * Point * unit) :=
  [("Work"%string, north 50, tt); ("Home"%string, north 10, tt)].

(** Providers that answer every request: Google with a place 5 m north of
    [origin], Foursquare with a place it puts at 30 m. *)
Definition online (_ : list Event) (rq : Request) : Response :=
  match rq_provider rq with
  | Google =>
      mkResponse 200
        (Some [GooglePlace "Cafe" (5 # 100000) 0 ["cafe"%string]])
  | Foursquare =>
      mkResponse 200 (Some [FoursquarePlace "Gym" 30 ["Gym"%string]])
  end.

(** Providers whose answers tie: Google gives a place at 30 m and then a
    place at 5 m, Foursquare a place at 30 m and then a place at 5 m. *)
Definition online_ties (_ : list Event) (rq : Request) : Response :=
  match rq_provider rq with
  | Google =>
      mkResponse 200
        (Some [GooglePlace "Bakery" (30 # 100000) 0 ["bakery"%string];
               GooglePlace "Cafe" (5 # 100000) 0 ["cafe"%string]])
  | Foursquare =>
      mkResponse 200
        (Some [FoursquarePlace "Gym" 30 ["Gym"%string];
               FoursquarePlace "Kiosk" 5 ["Shop"%string]])
  end.

(** Providers that answer every request with a server error. *)
Definition failing (_ : list Event) (_ : Request) : Response :=
  mkResponse 500 None.

(** Providers that answer every request with an empty result list. *)
Definition online_empty (_ : list Event) (_ : Request) : Response :=
  mkResponse 200 (Some []).

(** A cache of four queried points, 30, 20, 10 and 5 m north of [origin],
    inserted in that order. *)
Definition cache4 : Cache :=
  [(north 30, [cand "far" 30 GOOGLE]);
   (north 20, [cand "edge" 20 GOOGLE]);
   (north 10, [cand "near" 10 GOOGLE]);
   (north 5, [cand "nearest" 5 GOOGLE])].

(** A world whose Google cache holds one point, 30 m north of [origin]. *)
Definition world_far : World :=
  mkWorld [(north 30, [cand "far" 30 GOOGLE])] [] [].

(** A world whose Google cache holds one point, 1 m north of [origin]. *)
Definition world_near : World :=
  mkWorld [(north 1, [cand "near" 1 GOOGLE])] [] [].

Definition api_key : option string := Some "key"%string.

(** Providers that answer 200 with a body that has no result list. *)
Definition garbled (_ : list Event) (_ : Request) : Response :=
  mkResponse 200 None.

(** A world whose Google cache holds an empty list under a point 1 m north
    of [origin]. *)
Definition world_stale : World :=
  mkWorld [(north 1, [])] [] [].

End Example.

(* ================================================================== *)
(** * Properties of the Python primitives *)

Lemma Qlt_bool_iff (a b : Q) : Qlt_bool a b = true <-> (a < b)%Q.
Proof.
  unfold Qlt_bool. rewrite negb_true_iff.
  split; intro H.
  - apply Qnot_le_lt. intro Hle. apply Qle_bool_iff in Hle. congruence.
  - destruct (Qle_bool b a) eqn:E; [|reflexivity].
    apply Qle_bool_iff in E. exfalso. apply (Qlt_not_le _ _ H E).
Qed.

Lemma Qlt_bool_false_iff (a b : Q) : Qlt_bool a b = false <-> ~ (a < b)%Q.
Proof.
  rewrite <- Qlt_bool_iff. destruct (Qlt_bool a b); split; intro H;
    congruence.
Qed.

Lemma point_eqb_refl (p : Point) : point_eqb p p = true.
Proof. unfold point_eqb. now rewrite !Qeq_bool_refl. Qed.

Lemma Qeq_bool_comm (a b : Q) : Qeq_bool a b = Qeq_bool b a.
Proof.
  destruct (Qeq_bool a b) eqn:E, (Qeq_bool b a) eqn:F; try reflexivity.
  - apply Qeq_bool_sym in E. congruence.
  - apply Qeq_bool_sym in F. congruence.
Qed.

Lemma point_eqb_sym (p q : Point) : point_eqb p q = point_eqb q p.
Proof.
  unfold point_eqb.
  now rewrite (Qeq_bool_comm (lat p)), (Qeq_bool_comm (lon p)).
Qed.

Section DictFacts.
Variables K V : Type.
Variable eqb : K -> K -> bool.
Hypothesis eqb_refl : forall k, eqb k k = true.
Hypothesis eqb_sym : forall a b, eqb a b = eqb b a.

Lemma mem_app (k : K) (d1 d2 : dict K V) :
  mem eqb k (d1 ++ d2) = mem eqb k d1 || mem eqb k d2.
Proof. unfold mem. apply existsb_app. Qed.

(** In a well-formed dict an item is found under its own key. *)
Lemma get_own (pre post : dict K V) (k : K) (v : V) :
  wf eqb (pre ++ (k, v) :: post) = true ->
  get eqb k (pre ++ (k, v) :: post) = Some v.
Proof.
  induction pre as [|[k' v'] pre IH]; simpl.
  - now rewrite eqb_refl.
  - intro H. apply andb_true_iff in H. destruct H as [Hm Hw].
    rewrite negb_true_iff, mem_app in Hm. apply orb_false_iff in Hm.
    destruct Hm as [_ Hm]. simpl in Hm. apply orb_false_iff in Hm.
    destruct Hm as [Hk _]. rewrite eqb_sym in Hk. rewrite Hk. now apply IH.
Qed.

(** [d[k] = v] leaves the items in front of [k] alone and puts [v] right
    after them, under the key object already there or under [k]. *)
Lemma set_split (k : K) (v : V) (d : dict K V) :
  exists k' post,
    set eqb k v d = before eqb k d ++ (k', v) :: post /\ eqb k' k = true.
Proof.
  induction d as [|[k0 v0] d IH]; simpl.
  - exists k, []. now rewrite eqb_refl.
  - destruct (eqb k0 k) eqn:E.
    + exists k0, d. now split.
    + destruct IH as (k' & post & Heq & Hk). exists k', post.
      simpl. now rewrite Heq.
Qed.

Lemma mem_set_other (k k0 : K) (v : V) (d : dict K V) :
  eqb k0 k = false -> mem eqb k0 (set eqb k v d) = mem eqb k0 d.
Proof.
  intro Hk. induction d as [|[k1 v1] d IH]; simpl.
  - rewrite eqb_sym, Hk. reflexivity.
  - destruct (eqb k1 k); simpl; [reflexivity|]. now rewrite IH.
Qed.

Lemma wf_set (k : K) (v : V) (d : dict K V) :
  wf eqb d = true -> wf eqb (set eqb k v d) = true.
Proof.
  induction d as [|[k0 v0] d IH]; simpl; [easy|].
  intro H. apply andb_true_iff in H. destruct H as [Hm Hw].
  destruct (eqb k0 k) eqn:E; simpl.
  - now rewrite Hm, Hw.
  - rewrite mem_set_other by assumption. now rewrite Hm, IH.
Qed.

End DictFacts.

(* ================================================================== *)
(** * Properties of the proximity cache *)

Section CacheFacts.
Variable point_distance : Point -> Point -> Q.

Lemma from_cache_scan_skip cache point threshold (l1 l2 : list Point) :
  Forall (fun k => ~ within point_distance point threshold k) l1 ->
  from_cache_scan point_distance cache point threshold (l1 ++ l2)
  = from_cache_scan point_distance cache point threshold l2.
Proof.
  induction 1 as [|k l1 Hk _ IH]; simpl; [reflexivity|].
  apply Qlt_bool_false_iff in Hk. now rewrite Hk.
Qed.

Lemma from_cache_at (pre post : Cache) k v point threshold :
  wf point_eqb (pre ++ (k, v) :: post) = true ->
  Forall (fun e => ~ within point_distance point threshold (fst e)) pre ->
  within point_distance point threshold k ->
  from_cache point_distance (pre ++ (k, v) :: post) point threshold = Some v.
Proof.
  intros Hwf Hpre Hk. unfold from_cache, keys.
  rewrite map_app, from_cache_scan_skip.
  - simpl. apply Qlt_bool_iff in Hk. rewrite Hk.
    apply get_own; auto using point_eqb_refl, point_eqb_sym.
  - now apply Forall_map.
Qed.

Lemma from_cache_scan_found cache point threshold v :
  wf point_eqb cache = true ->
  forall suffix pre,
    cache = pre ++ suffix ->
    Forall (fun e => ~ within point_distance point threshold (fst e)) pre ->
    from_cache_scan point_distance cache point threshold (keys suffix)
    = Some v ->
    exists pre' k post,
      cache = pre' ++ (k, v) :: post
      /\ Forall (fun e => ~ within point_distance point threshold (fst e)) pre'
      /\ within point_distance point threshold k.
Proof.
  intros Hwf. induction suffix as [|[k v0] suffix IH]; simpl;
    intros pre Hc Hpre Hscan; [discriminate|].
  destruct (Qlt_bool (point_distance point k) threshold) eqn:E.
  - apply Qlt_bool_iff in E. subst cache.
    rewrite get_own in Hscan; auto using point_eqb_refl, point_eqb_sym.
    injection Hscan as ->. now exists pre, k, suffix.
  - apply Qlt_bool_false_iff in E.
    apply (IH (pre ++ [(k, v0)])); auto.
    + now rewrite <- app_assoc.
    + apply Forall_app. split; [assumption|]. now constructor.
Qed.

Lemma from_cache_none cache point threshold :
  Forall (fun e => ~ within point_distance point threshold (fst e)) cache ->
  from_cache point_distance cache point threshold = None.
Proof.
  intro H. unfold from_cache, keys.
  rewrite <- (app_nil_r (map fst cache)), from_cache_scan_skip;
    [reflexivity|]. now apply Forall_map.
Qed.

(** C5. The look-up returns the value of the first key, in insertion
    order, that is strictly closer to the query point than the threshold:
    the item after a run of keys that are not strictly closer is returned
    when its own key is, whatever is returned sits at such a place, and a
    cache whose keys are all at the threshold or beyond (at exactly the
    threshold included) gives no hit. *)
Theorem from_cache_first_within (cache : Cache) (point : Point)
    (threshold : Q) :
  wf point_eqb cache = true ->
  (forall pre k v post,
      cache = pre ++ (k, v) :: post ->
      Forall (fun e => ~ (point_distance point (fst e) < threshold)%Q) pre ->
      (point_distance point k < threshold)%Q ->
      from_cache point_distance cache point threshold = Some v)
  /\ (forall v,
      from_cache point_distance cache point threshold = Some v ->
      exists pre k post,
        cache = pre ++ (k, v) :: post
        /\ Forall (fun e => ~ (point_distance point (fst e) < threshold)%Q)
             pre
        /\ (point_distance point k < threshold)%Q)
  /\ (Forall (fun e => (threshold <= point_distance point (fst e))%Q) cache ->
      from_cache point_distance cache point threshold = None).
Proof.
  intro Hwf. repeat split.
  - intros pre k v post -> Hpre Hk. now apply from_cache_at.
  - intros v Hv.
    apply (@from_cache_scan_found cache point threshold v Hwf cache []);
      auto.
  - intro Hall. apply from_cache_none.
    eapply Forall_impl; [|exact Hall]. intros e He Hlt.
    unfold within in Hlt. apply (Qlt_not_le _ _ Hlt He).
Qed.

End CacheFacts.

(* ================================================================== *)
(** * Properties of the provider adapters *)

Lemma get_set_same (k : Point) (v : list Candidate) (d : Cache) :
  get point_eqb k (set point_eqb k v d) = Some v.
Proof.
  induction d as [|[k0 v0] d IH]; simpl.
  - now rewrite point_eqb_refl.
  - destruct (point_eqb k0 k) eqn:E; simpl; now rewrite E.
Qed.

Section ProviderFacts.
Variable point_distance : Point -> Point -> Q.
Variable requests_get : list Event -> Request -> Response.

(** The world after [insert_cache]. *)
Lemma insert_cache_cache prov k values w :
  cache_of prov (fst (insert_cache prov k values w))
  = set point_eqb k values (cache_of prov w)
  /\ trace (fst (insert_cache prov k values w)) = trace w.
Proof. destruct prov; now split. Qed.

(** A look-up after an insertion under a key in front of which no key is
    within the threshold finds the inserted value. *)
Lemma from_cache_set (cache : Cache) point threshold k values :
  wf point_eqb cache = true ->
  (forall k', point_eqb k' k = true ->
     (point_distance point k' == point_distance point k)%Q) ->
  within point_distance point threshold k ->
  Forall (fun e => ~ within point_distance point threshold (fst e))
    (before point_eqb k cache) ->
  from_cache point_distance (set point_eqb k values cache) point threshold
  = Some values.
Proof.
  intros Hwf Hproper Hk Hbefore.
  destruct (set_split point_eqb point_eqb_refl k values cache)
    as (k' & post & Heq & Hk').
  pose proof (wf_set point_eqb point_eqb_sym k values cache Hwf) as Hwf'.
  rewrite Heq in *. apply from_cache_at; auto.
  unfold within in *. now rewrite (Hproper k' Hk').
Qed.

(** An adapter whose look-up is a hit returns the cached list and does not
    touch the network. *)
Lemma query_hit prov point max_distance key w values :
  truthy_str key = true ->
  from_cache point_distance (cache_of prov w) point max_distance
  = Some values ->
  values <> [] ->
  query point_distance requests_get prov point max_distance key w
  = (mkWorld (GG_CACHE w) (FS_CACHE w)
       (trace w ++ [EvCacheLookup prov point max_distance;
                    EvCacheLookup prov point max_distance]),
     inr values).
Proof.
  intros Hkey Hhit Hne.
  destruct values as [|c cs]; [congruence|].
  destruct prov; simpl in *;
    unfold query_google, query_foursquare, bind, cache_lookup, ret;
    rewrite Hkey; simpl; rewrite Hhit; simpl; rewrite Hhit;
    now rewrite <- app_assoc.
Qed.

(** An adapter whose look-up is not a hit sends its request. *)
Lemma query_miss_trace prov point max_distance key w :
  truthy_str key = true ->
  truthy_list
    (from_cache point_distance (cache_of prov w) point max_distance)
  = false ->
  trace (fst (query point_distance requests_get prov point max_distance
                key w))
  = trace w ++ [EvCacheLookup prov point max_distance;
                EvGet (request_of prov point max_distance key)].
Proof.
  intros Hkey Hmiss.
  destruct prov; simpl in *;
    unfold query_google, query_foursquare, bind, cache_lookup, http_get,
      ret, raise, request_of;
    rewrite Hkey; simpl; rewrite Hmiss; simpl;
    match goal with
    | |- context [requests_get ?t ?r] => destruct (requests_get t r) as [sc rs]
    end; simpl;
    destruct (sc =? 200)%Z; simpl; try (now rewrite <- app_assoc);
    destruct rs as [rs|]; simpl; try (now rewrite <- app_assoc);
    unfold lift, bind;
    match goal with
    | |- context [google_results ?d ?p ?l] =>
        destruct (google_results d p l)
    | |- context [foursquare_results ?l] => destruct (foursquare_results l)
    end; simpl; now rewrite <- app_assoc.
Qed.

(** C7. Either adapter called with an absent ([None]) or empty key returns
    the empty list at once: the world it leaves is the world it was given,
    so neither cache is written and the trace gains neither a cache look-up
    nor a request. *)
Theorem query_without_key_is_inert (prov : Provider) (point : Point)
    (max_distance : Q) (w : World) :
  query point_distance requests_get prov point max_distance None w
  = (w, inr [])
  /\ query point_distance requests_get prov point max_distance
       (Some EmptyString) w
     = (w, inr []).
Proof. destruct prov; split; reflexivity. Qed.

(** C8. When the adapter reaches the provider (truthy key, no cache hit): a
    status other than 200 gives the empty list without an exception and
    leaves both caches as they were; a 200 response whose results normalise
    to [cs], the empty list included, is stored under the query point in
    this provider's cache and then returned. *)
Theorem query_caches_only_success (prov : Provider) (point : Point)
    (max_distance : Q) (key : option string) (w : World) :
  truthy_str key = true ->
  truthy_list
    (from_cache point_distance (cache_of prov w) point max_distance)
  = false ->
  let rq := request_of prov point max_distance key in
  let tr := trace w ++ [EvCacheLookup prov point max_distance] in
  let resp := requests_get tr rq in
  (status_code resp <> 200%Z ->
   query point_distance requests_get prov point max_distance key w
   = (mkWorld (GG_CACHE w) (FS_CACHE w) (tr ++ [EvGet rq]), inr []))
  /\ (status_code resp = 200%Z ->
      forall rs cs,
        results resp = Some rs ->
        normalise point_distance prov point rs = inr cs ->
        exists w',
          query point_distance requests_get prov point max_distance key w
          = (w', inr cs)
          /\ cache_of prov w' = set point_eqb point cs (cache_of prov w)
          /\ get point_eqb point (cache_of prov w') = Some cs
          /\ trace w' = tr ++ [EvGet rq])
  /\ (status_code resp = 200%Z ->
      results resp = Some [] ->
      get point_eqb point
        (cache_of prov
           (fst (query point_distance requests_get prov point max_distance
                   key w)))
      = Some []).
Proof.
  intros Hkey Hmiss rq tr resp.
  assert (Hsuccess : status_code resp = 200%Z ->
      forall rs cs,
        results resp = Some rs ->
        normalise point_distance prov point rs = inr cs ->
        exists w',
          query point_distance requests_get prov point max_distance key w
          = (w', inr cs)
          /\ cache_of prov w' = set point_eqb point cs (cache_of prov w)
          /\ get point_eqb point (cache_of prov w') = Some cs
          /\ trace w' = tr ++ [EvGet rq]).
  { intros Hst rs cs Hrs Hcs. subst resp tr rq.
    destruct prov; simpl in *;
      unfold query_google, query_foursquare, bind, cache_lookup, http_get,
        ret, raise, request_of in *;
      rewrite Hkey; simpl; rewrite Hmiss; simpl;
      rewrite Hst; simpl; rewrite Hrs; simpl;
      unfold lift, bind; rewrite Hcs; simpl;
      eexists; (split; [reflexivity|]); simpl;
      repeat split; auto using get_set_same. }
  split; [|split; [exact Hsuccess|]].
  - intro Hst. apply Z.eqb_neq in Hst. subst resp tr rq.
    destruct prov; simpl in *;
      unfold query_google, query_foursquare, bind, cache_lookup, http_get,
        ret, request_of in *;
      rewrite Hkey; simpl; rewrite Hmiss; simpl; rewrite Hst; simpl;
      now rewrite <- app_assoc.
  - intros Hst Hrs.
    destruct (Hsuccess Hst [] []) as (w' & Hq & _ & Hget & _); auto.
    + now destruct prov.
    + now rewrite Hq.
Qed.

(** C6, as amended. Let a key be within the threshold of the query point,
    with no key in front of it in the provider's cache within the threshold.
    After an empty list is inserted under that key the look-up returns the
    empty list, which the adapter takes for a miss: it sends its request.
    After a non-empty list is inserted under it the look-up returns exactly
    that list, and the adapter returns it without a request and without
    changing either cache. *)
Theorem insert_then_lookup_first_key (prov : Provider) (w : World)
    (point k : Point) (max_distance : Q) (key : option string) :
  wf point_eqb (cache_of prov w) = true ->
  (forall k', point_eqb k' k = true ->
     (point_distance point k' == point_distance point k)%Q) ->
  within point_distance point max_distance k ->
  Forall (fun e => ~ within point_distance point max_distance (fst e))
    (before point_eqb k (cache_of prov w)) ->
  truthy_str key = true ->
  (let w1 := fst (insert_cache prov k [] w) in
   from_cache point_distance (cache_of prov w1) point max_distance = Some []
   /\ trace (fst (query point_distance requests_get prov point max_distance
                    key w1))
      = trace w ++ [EvCacheLookup prov point max_distance;
                    EvGet (request_of prov point max_distance key)])
  /\ (forall values, values <> [] ->
      let w2 := fst (insert_cache prov k values w) in
      from_cache point_distance (cache_of prov w2) point max_distance
      = Some values
      /\ query point_distance requests_get prov point max_distance key w2
         = (mkWorld (GG_CACHE w2) (FS_CACHE w2)
              (trace w ++ [EvCacheLookup prov point max_distance;
                           EvCacheLookup prov point max_distance]),
            inr values)).
Proof.
  intros Hwf Hproper Hk Hbefore Hkey.
  assert (Hlook : forall values,
    from_cache point_distance
      (cache_of prov (fst (insert_cache prov k values w))) point max_distance
    = Some values).
  { intro values. destruct (insert_cache_cache prov k values w) as [-> _].
    now apply from_cache_set. }
  split.
  - intro w1. split; [apply Hlook|].
    subst w1. rewrite query_miss_trace; auto.
    + now destruct (insert_cache_cache prov k [] w) as [_ ->].
    + now rewrite Hlook.
  - intros values Hne w2. split; [apply Hlook|].
    subst w2. rewrite (@query_hit prov point max_distance key _ values);
      auto.
    now destruct (insert_cache_cache prov k values w) as [_ ->].
Qed.

End ProviderFacts.

(* ================================================================== *)
(** * Properties of the cluster engine *)

Section GroupFacts.
Variable points : list (Q * Q).
Variable P : Z -> Prop.

Lemma set_keys_Forall (k : Z) (v : list (Q * Q)) (d : dict Z (list (Q * Q))) :
  P k -> Forall (fun e => P (fst e)) d ->
  Forall (fun e => P (fst e)) (set Z.eqb k v d).
Proof.
  intros Hk. induction 1 as [|[k0 v0] d H0 Hd IH]; simpl.
  - now repeat constructor.
  - destruct (k0 =? k)%Z; constructor; auto.
Qed.

(** Grouping succeeds when every index met is an index of [points], and
    every key of the result is one of the labels (or was a key before). *)
Lemma group_fold_ok (labels : list Z) :
  forall (n : nat) (cs : dict Z (list (Q * Q))),
    (n + List.length labels <= List.length points)%nat ->
    Forall P labels ->
    Forall (fun e => P (fst e)) cs ->
    exists cs',
      fold_left (group_step points) (combine (seq n (List.length labels)) labels)
        (inr cs) = inr cs'
      /\ Forall (fun e => P (fst e)) cs'.
Proof.
  induction labels as [|l labels IH]; simpl; intros n cs Hlen Hl Hcs.
  - now exists cs.
  - inversion Hl as [|? ? Hl0 Hls]; subst.
    destruct (nth_error points n) as [p|] eqn:Hn.
    + destruct (get Z.eqb l cs) as [members|];
        apply IH; try lia; auto using set_keys_Forall.
    + apply nth_error_None in Hn. lia.
Qed.

Lemma group_labels_ok (labels : list Z) :
  (List.length labels <= List.length points)%nat ->
  Forall P labels ->
  exists cs,
    group_labels points labels = inr cs /\ Forall (fun e => P (fst e)) cs.
Proof.
  intros Hlen Hl. unfold group_labels, enumerate.
  apply group_fold_ok; auto.
Qed.

End GroupFacts.

Lemma select_fold_noise (clusters : dict Z (list (Q * Q))) :
  Forall (fun e => (fst e < 0)%Z) clusters ->
  forall st,
    biggest_centroid (fold_left select_step clusters st)
    = biggest_centroid st.
Proof.
  induction 1 as [|[l c] clusters Hl _ IH]; simpl; intro st; [reflexivity|].
  rewrite IH. simpl in Hl.
  destruct (0 <=? l)%Z eqn:E; [apply Z.leb_le in E; lia|reflexivity].
Qed.

(** Clusters that are noise or strictly smaller than the current biggest
    leave the selection alone. *)
Lemma select_fold_smaller (m : Z) (clusters : dict Z (list (Q * Q))) :
  Forall (fun e => (0 <= fst e)%Z -> (len (snd e) < m)%Z) clusters ->
  forall st,
    biggest_centroid_l st = Some m ->
    biggest_centroid (fold_left select_step clusters st)
    = biggest_centroid st.
Proof.
  induction 1 as [|[l c] clusters Hl _ IH]; simpl; intros st Hst;
    [reflexivity|].
  simpl in Hl. rewrite Hst. simpl.
  destruct (0 <=? l)%Z eqn:E; simpl.
  - apply Z.leb_le in E. specialize (Hl E).
    destruct (m <=? len c)%Z eqn:F; [apply Z.leb_le in F; lia|].
    now rewrite IH.
  - now rewrite IH.
Qed.

(** Clusters that are noise or no bigger than [m] keep the current biggest
    count at [m] or less. *)
Lemma select_fold_bounded (m : Z) (clusters : dict Z (list (Q * Q))) :
  Forall (fun e => (0 <= fst e)%Z -> (len (snd e) <= m)%Z) clusters ->
  forall st,
    ge_biggest m (biggest_centroid_l st) = true ->
    ge_biggest m (biggest_centroid_l (fold_left select_step clusters st))
    = true.
Proof.
  induction 1 as [|[l c] clusters Hl _ IH]; simpl; intros st Hst;
    [assumption|].
  simpl in Hl. apply IH.
  destruct (0 <=? l)%Z eqn:E; simpl; [|assumption].
  apply Z.leb_le in E. specialize (Hl E).
  destruct (ge_biggest (len c) (biggest_centroid_l st)); simpl;
    [now apply Z.leb_le|assumption].
Qed.

(** The selection loop ends on the last cluster of maximal count. *)
Lemma select_biggest_last_max (pre post : dict Z (list (Q * Q))) (l : Z)
    (members : list (Q * Q)) :
  (0 <= l)%Z ->
  Forall (fun e => (0 <= fst e)%Z -> (len (snd e) <= len members)%Z) pre ->
  Forall (fun e => (0 <= fst e)%Z -> (len (snd e) < len members)%Z) post ->
  biggest_centroid (select_biggest (pre ++ (l, members) :: post))
  = Some (compute_centroid members).
Proof.
  intros Hl Hpre Hpost. unfold select_biggest.
  rewrite fold_left_app. simpl.
  pose proof (select_fold_bounded Hpre (mkSelection [] None None) eq_refl)
    as Hb.
  apply Z.leb_le in Hl. rewrite Hl, Hb. simpl.
  now rewrite (select_fold_smaller Hpost).
Qed.

Section ClusterEngineFacts.
Variable estimate_meters_to_deg : Q -> Q.
Variable DBSCAN : Q -> Z -> list (Q * Q) -> exn + list Z.

(** C4. When the clustering labels every point of the extended history
    [-1] (noise), the function returns, without an error, the point whose
    latitude and longitude are the arithmetic means of those of the history
    with the new point appended, together with that extended history. *)
Theorem update_location_centroid_all_noise (point : Point)
    (cluster : list Point) (max_distance : Q) (min_samples : Z) :
  let history := cluster ++ [point] in
  DBSCAN (estimate_meters_to_deg max_distance) min_samples
    (map gen2arr history)
  = inr (repeat (-1)%Z (List.length history)) ->
  update_location_centroid estimate_meters_to_deg DBSCAN point cluster
    max_distance min_samples
  = inr (mkPoint
           (Qsum (map lat history) / inject_Z (len history))
           (Qsum (map lon history) / inject_Z (len history))
           None,
         history).
Proof.
  intros history Hlabels. unfold update_location_centroid.
  fold history. rewrite Hlabels.
  destruct (@group_labels_ok (map gen2arr history) (fun l => (l < 0)%Z)
              (repeat (-1)%Z (List.length history))) as (cs & Hcs & Hneg).
  - now rewrite repeat_length, length_map.
  - apply Forall_forall. intros l Hl. apply repeat_spec in Hl. lia.
  - rewrite Hcs. unfold select_biggest.
    rewrite (select_fold_noise Hneg). simpl.
    unfold compute_centroid, mean, len.
    rewrite !map_map, !length_map. reflexivity.
Qed.

(** C3, as amended. Among the non-noise clusters, taken in the order their
    labels first occur, the centroid returned is that of the last one whose
    member count is maximal: no cluster before it is bigger and every
    cluster after it is strictly smaller, so a cluster of equal size met
    later does replace an earlier one. *)
Theorem update_location_centroid_last_biggest (point : Point)
    (cluster : list Point) (max_distance : Q) (min_samples : Z)
    (labels : list Z) (pre post : dict Z (list (Q * Q))) (l : Z)
    (members : list (Q * Q)) :
  let history := cluster ++ [point] in
  DBSCAN (estimate_meters_to_deg max_distance) min_samples
    (map gen2arr history) = inr labels ->
  group_labels (map gen2arr history) labels
  = inr (pre ++ (l, members) :: post) ->
  (0 <= l)%Z ->
  Forall (fun e => (0 <= fst e)%Z -> (len (snd e) <= len members)%Z) pre ->
  Forall (fun e => (0 <= fst e)%Z -> (len (snd e) < len members)%Z) post ->
  update_location_centroid estimate_meters_to_deg DBSCAN point cluster
    max_distance min_samples
  = inr (compute_centroid members, history).
Proof.
  intros history Hlabels Hgroup Hl Hpre Hpost.
  unfold update_location_centroid. fold history.
  rewrite Hlabels, Hgroup.
  now rewrite select_biggest_last_max.
Qed.

End ClusterEngineFacts.

(** An all-noise clustering of three visits: the centroid is their mean. *)
Lemma update_location_centroid_all_noise_witness :
  update_location_centroid Example.meters_to_deg Example.dbscan_noise
    Example.b1 [Example.a1; Example.a2] 10 5
  = inr (mkPoint
           (Qsum [0; 1 # 100000; 1] / 3)
           (Qsum [0; 0; 1] / 3)
           None,
         [Example.a1; Example.a2; Example.b1]).
Proof.
  apply (update_location_centroid_all_noise Example.meters_to_deg
           Example.dbscan_noise Example.b1 [Example.a1; Example.a2] 10 5).
  reflexivity.
Defined.

(** Two clusters of two members each: the second one met gives the
    centroid. *)
Lemma update_location_centroid_last_biggest_witness :
  update_location_centroid Example.meters_to_deg Example.dbscan_pairs
    Example.b2 [Example.a1; Example.a2; Example.b1] 10 2
  = inr (compute_centroid [gen2arr Example.b1; gen2arr Example.b2],
         [Example.a1; Example.a2; Example.b1; Example.b2]).
Proof.
  apply (@update_location_centroid_last_biggest Example.meters_to_deg
           Example.dbscan_pairs Example.b2
           [Example.a1; Example.a2; Example.b1] 10 2 [0; 0; 1; 1]%Z
           [(0%Z, [gen2arr Example.a1; gen2arr Example.a2])] []
           1%Z [gen2arr Example.b1; gen2arr Example.b2]).
  - reflexivity.
  - reflexivity.
  - lia.
  - repeat constructor. simpl. intros _. vm_compute. discriminate.
  - constructor.
Defined.

(** C3 fails as stated: with two non-noise clusters of two members each,
    the first cluster to reach the count 2 is [{a1, a2}], but the centroid
    returned is that of [{b1, b2}], whose latitude differs. *)
Lemma update_location_centroid_tie_counterexample :
  exists c,
    update_location_centroid Example.meters_to_deg Example.dbscan_pairs
      Example.b2 [Example.a1; Example.a2; Example.b1] 10 2
    = inr (c, [Example.a1; Example.a2; Example.b1; Example.b2])
    /\ group_labels
         (map gen2arr [Example.a1; Example.a2; Example.b1; Example.b2])
         [0; 0; 1; 1]%Z
       = inr [(0%Z, [gen2arr Example.a1; gen2arr Example.a2]);
              (1%Z, [gen2arr Example.b1; gen2arr Example.b2])]
    /\ ~ (lat c
          == lat (compute_centroid [gen2arr Example.a1; gen2arr Example.a2]))%Q
    /\ (lat c
        == lat (compute_centroid [gen2arr Example.b1; gen2arr Example.b2]))%Q.
Proof.
  eexists. split; [reflexivity|]. split; [reflexivity|].
  split; vm_compute; [intro H; discriminate H|reflexivity].
Qed.

(* ================================================================== *)
(** * Properties of sorting and slicing *)

Section SortedFacts.
Variable A : Type.
Variable key : A -> Q.

Lemma insert_by_HdRel (a x : A) (l : list A) :
  (key a <= key x)%Q ->
  HdRel (fun a b => (key a <= key b)%Q) a l ->
  HdRel (fun a b => (key a <= key b)%Q) a (insert_by key x l).
Proof.
  intros Hax Hl. destruct l as [|y l]; simpl.
  - now constructor.
  - destruct (Qle_bool (key x) (key y)); constructor; auto.
    now inversion Hl.
Qed.

Lemma insert_by_ascending (x : A) (l : list A) :
  ascending key l -> ascending key (insert_by key x l).
Proof.
  unfold ascending. induction 1 as [|y l Hl IH Hy]; simpl.
  - now repeat constructor.
  - destruct (Qle_bool (key x) (key y)) eqn:E.
    + apply Qle_bool_iff in E. repeat constructor; auto.
    + constructor; [assumption|].
      apply insert_by_HdRel; [|assumption].
      apply Qlt_le_weak, Qnot_le_lt. intro Hle.
      apply Qle_bool_iff in Hle. congruence.
Qed.

(** [sorted] returns its items in ascending order of key. *)
Lemma sorted_ascending (l : list A) : ascending key (sorted key l).
Proof.
  induction l as [|x l IH]; simpl.
  - constructor.
  - now apply insert_by_ascending.
Qed.

Lemma insert_by_In (x y : A) (l : list A) :
  In y (insert_by key x l) <-> y = x \/ In y l.
Proof.
  induction l as [|z l IH]; simpl.
  - intuition.
  - destruct (Qle_bool (key x) (key z)); simpl; [intuition|].
    rewrite IH. intuition.
Qed.

(** [sorted] returns the items it was given. *)
Lemma sorted_In (y : A) (l : list A) : In y (sorted key l) <-> In y l.
Proof.
  induction l as [|x l IH]; simpl; [reflexivity|].
  rewrite insert_by_In, IH. intuition.
Qed.

Lemma insert_by_length (x : A) (l : list A) :
  List.length (insert_by key x l) = S (List.length l).
Proof.
  induction l as [|z l IH]; simpl; [reflexivity|].
  destruct (Qle_bool (key x) (key z)); simpl; now rewrite ?IH.
Qed.

Lemma sorted_length (l : list A) :
  List.length (sorted key l) = List.length l.
Proof.
  induction l as [|x l IH]; simpl; [reflexivity|].
  now rewrite insert_by_length, IH.
Qed.

Lemma ascending_firstn (n : nat) (l : list A) :
  ascending key l -> ascending key (firstn n l).
Proof.
  unfold ascending. intro H. revert n.
  induction H as [|x l Hl IH Hx]; intro n.
  - rewrite firstn_nil. constructor.
  - destruct n as [|n]; simpl; [constructor|].
    constructor; [apply IH|].
    destruct l as [|y l]; destruct n; simpl; constructor.
    now inversion Hx.
Qed.

Lemma In_firstn (n : nat) (x : A) (l : list A) :
  In x (firstn n l) -> In x l.
Proof.
  intro H. rewrite <- (firstn_skipn n l). apply in_or_app. now left.
Qed.

(** A slice [l[:n]] is a prefix of [l]. *)
Lemma slice_to_firstn (l : list A) (n : Z) :
  exists m, slice_to l n = firstn m l.
Proof. unfold slice_to. destruct (0 <=? n)%Z; eauto. Qed.

End SortedFacts.

(* ================================================================== *)
(** * Properties of the location resolver *)

Section ResolverFacts.
Variable point_distance : Point -> Point -> Q.
Variable requests_get : list Event -> Request -> Response.
Variables Extra J : Type.

Lemma len_pos_iff {A} (l : list A) : (0 <? len l)%Z = true <-> l <> [].
Proof.
  unfold len. destruct l; simpl; split; intro H; try congruence;
    try discriminate; reflexivity.
Qed.

(** Sorting only a non-empty list is sorting. *)
Lemma sorted_if_nonempty (api : list Candidate) :
  (if (0 <? len api)%Z then sorted distance api else api)
  = sorted distance api.
Proof. now destruct api. Qed.

(** What a returned [Location] is made of. *)
Lemma infer_location_returns point
    (location_query : option (Point -> Q -> list (string * Point * Extra)))
    max_distance use_google google_key use_foursquare foursquare_key limit
    (w w' : World) (loc : Location.t J) :
  infer_location point_distance requests_get point location_query
    max_distance use_google google_key use_foursquare foursquare_key limit w
  = (w', inr loc) ->
  let kb := kb_locations point_distance point location_query max_distance in
  exists api,
    (kb = []
     /\ loc = Location.Location "#?" (Location.PointObj point)
                (sorted distance api))
    \/ (kb <> []
        /\ exists first rest,
             slice_to (sorted distance kb ++ sorted distance api) limit
             = first :: rest
             /\ loc = Location.Location (label first)
                        (Location.PointObj point) (first :: rest)).
Proof.
  intros Hrun kb. unfold infer_location, bind in Hrun. fold kb in Hrun.
  match type of Hrun with
  | context [if ?c then ?m else ret []] =>
      destruct ((if c then m else ret []) w) as [w1 [e|api]] eqn:Hapi
  end; [discriminate|].
  exists api. rewrite sorted_if_nonempty in Hrun.
  destruct (0 <? len kb)%Z eqn:Hkb.
  - right. split; [now apply len_pos_iff|].
    destruct (slice_to (sorted distance kb ++ sorted distance api) limit)
      as [|first rest]; simpl in Hrun; unfold raise, ret in Hrun;
      [discriminate|].
    exists first, rest. split; [reflexivity|]. congruence.
  - left. unfold ret in Hrun. split; [|congruence].
    destruct kb; [reflexivity|discriminate].
Qed.

Lemma kb_locations_tagged point
    (location_query : option (Point -> Q -> list (string * Point * Extra)))
    max_distance :
  Forall (fun c => suggestion_type c = KB)
    (kb_locations point_distance point location_query max_distance).
Proof.
  unfold kb_locations. destruct location_query as [q|]; [|constructor].
  apply Forall_map. apply Forall_forall. now intros [[l c] x] _.
Qed.

(** What a returned [Location] is made of, and where the provider
    candidates in it come from: the guarded provider calls when the
    knowledge base does not exceed the limit, nowhere otherwise. *)
Lemma infer_location_returns_api point
    (location_query : option (Point -> Q -> list (string * Point * Extra)))
    max_distance use_google google_key use_foursquare foursquare_key limit
    (w w' : World) (loc : Location.t J) :
  infer_location point_distance requests_get point location_query
    max_distance use_google google_key use_foursquare foursquare_key limit w
  = (w', inr loc) ->
  let kb := kb_locations point_distance point location_query max_distance in
  exists api,
    ((len kb <= limit)%Z
     /\ api_locations_of point_distance requests_get point max_distance
          use_google google_key use_foursquare foursquare_key w
        = (w', inr api)
     \/ (limit < len kb)%Z /\ api = [] /\ w' = w)
    /\ (kb = []
        /\ loc = Location.Location "#?" (Location.PointObj point)
                   (sorted distance api)
        \/ kb <> []
           /\ exists first rest,
                slice_to (sorted distance kb ++ sorted distance api) limit
                = first :: rest
                /\ loc = Location.Location (label first)
                           (Location.PointObj point) (first :: rest)).
Proof.
  intros Hrun kb. unfold infer_location, bind in Hrun. fold kb in Hrun.
  assert (Hapi : exists w1 api,
    (if (len kb <=? limit)%Z
     then api_locations_of point_distance requests_get point max_distance
            use_google google_key use_foursquare foursquare_key
     else ret []) w = (w1, inr api)
    /\ ((len kb <= limit)%Z
        /\ api_locations_of point_distance requests_get point max_distance
             use_google google_key use_foursquare foursquare_key w
           = (w1, inr api)
        \/ (limit < len kb)%Z /\ api = [] /\ w1 = w)).
  { destruct (len kb <=? limit)%Z eqn:E.
    - apply Z.leb_le in E.
      destruct (api_locations_of point_distance requests_get point
                  max_distance use_google google_key use_foursquare
                  foursquare_key w) as [w1 [e|api]] eqn:Hq;
        [discriminate|].
      exists w1, api. split; [reflexivity|]. left. now split.
    - apply Z.leb_gt in E. exists w, []. split; [reflexivity|].
      right. now repeat split. }
  destruct Hapi as (w1 & api & Heq & Hfrom). rewrite Heq in Hrun.
  rewrite sorted_if_nonempty in Hrun.
  destruct (0 <? len kb)%Z eqn:Hkb.
  - destruct (slice_to (sorted distance kb ++ sorted distance api) limit)
      as [|first rest] eqn:Hs; simpl in Hrun; unfold raise, ret in Hrun;
      [discriminate|].
    injection Hrun as <- <-. exists api. split; [exact Hfrom|].
    right. split; [now apply len_pos_iff|].
    now exists first, rest.
  - unfold ret in Hrun. injection Hrun as <- <-.
    exists api. split; [exact Hfrom|]. left. split; [|reflexivity].
    destruct kb; [reflexivity|discriminate].
Qed.

(** C2, as amended. For every [Location] that [infer_location] returns,
    with [api] the candidates the guarded provider calls returned (none
    when the knowledge base exceeds the limit, the providers then not being
    asked): when the knowledge base gives no candidate the label is the
    sentinel ['#?'], whether or not there are alternatives, and the
    alternatives are the provider candidates in ascending order of
    distance; when it gives some, the alternatives are a non-empty run of
    knowledge-base candidates in ascending order of distance, whose first
    gives the label, followed by a run of provider candidates in ascending
    order of distance. *)
Theorem infer_location_alternatives point
    (location_query : option (Point -> Q -> list (string * Point * Extra)))
    max_distance use_google google_key use_foursquare foursquare_key limit
    (w w' : World) (loc : Location.t J) :
  infer_location point_distance requests_get point location_query
    max_distance use_google google_key use_foursquare foursquare_key limit w
  = (w', inr loc) ->
  let kb := kb_locations point_distance point location_query max_distance in
  exists api,
    ((len kb <= limit)%Z
     /\ api_locations_of point_distance requests_get point max_distance
          use_google google_key use_foursquare foursquare_key w
        = (w', inr api)
     \/ (limit < len kb)%Z /\ api = [] /\ w' = w)
    /\ (kb = [] ->
        Location.label loc = "#?"%string
        /\ ascending distance (Location.other loc)
        /\ (forall c, In c (Location.other loc) <-> In c api)
        /\ List.length (Location.other loc) = List.length api)
    /\ (kb <> [] ->
        exists first ks aps,
          Location.other loc = (first :: ks) ++ aps
          /\ Location.label loc = label first
          /\ ascending distance (first :: ks)
          /\ (forall c, In c (first :: ks) -> In c kb)
          /\ Forall (fun c => suggestion_type c = KB) (first :: ks)
          /\ ascending distance aps
          /\ (forall c, In c aps -> In c api)).
Proof.
  intros Hrun kb.
  apply infer_location_returns_api in Hrun.
  destruct Hrun as (api & Hfrom & Hshape). fold kb in Hfrom, Hshape.
  exists api. split; [exact Hfrom|].
  destruct Hshape as [[Hkb ->]|[Hkb (first & rest & Hslice & ->)]];
    (split; [intros Hkb'|intros Hkb']); try contradiction.
  - simpl. split; [reflexivity|]. split; [apply sorted_ascending|].
    split; [intro c; apply sorted_In|apply sorted_length].
  - destruct (slice_to_firstn
                (sorted distance kb ++ sorted distance api) limit)
      as [m Hm].
    rewrite Hm, firstn_app in Hslice.
    destruct (sorted distance kb) as [|c0 s] eqn:Hs.
    { exfalso. apply Hkb. apply length_zero_iff_nil.
      now rewrite <- (sorted_length distance kb), Hs. }
    destruct m as [|m]; [discriminate Hslice|].
    simpl in Hslice. injection Hslice as <- <-.
    assert (Hpre : c0 :: firstn m s = firstn (S m) (sorted distance kb))
      by now rewrite Hs.
    exists c0, (firstn m s),
      (firstn (m - List.length s) (sorted distance api)).
    assert (Hin : forall c, In c (c0 :: firstn m s) -> In c kb).
    { intros c Hc. rewrite Hpre in Hc. apply In_firstn in Hc.
      now apply sorted_In in Hc. }
    split; [reflexivity|]. split; [reflexivity|].
    split; [rewrite Hpre; apply ascending_firstn, sorted_ascending|].
    split; [exact Hin|].
    split.
    { apply Forall_forall. intros c Hc.
      pose proof (kb_locations_tagged point location_query max_distance)
        as Htag.
      rewrite Forall_forall in Htag. apply Htag. now apply Hin. }
    split; [apply ascending_firstn, sorted_ascending|].
    intros c Hc. apply In_firstn in Hc. now apply sorted_In in Hc.
Qed.

(** C1, as amended. With knowledge-base candidates at distances [50, 10],
    provider candidates at distances [5, 30] and limit 3, the alternatives
    are [KB@10, KB@50, API@5]: the knowledge-base candidates in ascending
    order come first, the provider candidates follow, and the API@30
    candidate is the one cut off. The label is that of KB@10. *)
Theorem infer_location_merge_order point
    (location_query : option (Point -> Q -> list (string * Point * Extra)))
    max_distance use_google google_key use_foursquare foursquare_key
    (w w' : World) (api : list Candidate) :
  Forall2 Qeq
    (map distance
       (kb_locations point_distance point location_query max_distance))
    [50; 10]%Q ->
  api_locations_of point_distance requests_get point max_distance
    use_google google_key use_foursquare foursquare_key w
  = (w', inr api) ->
  Forall2 Qeq (map distance api) [5; 30]%Q ->
  exists kb50 kb10 api5 api30,
    kb_locations point_distance point location_query max_distance
    = [kb50; kb10]
    /\ api = [api5; api30]
    /\ infer_location point_distance requests_get (J:=J) point
         location_query max_distance use_google google_key use_foursquare
         foursquare_key 3 w
       = (w', inr (Location.Location (label kb10) (Location.PointObj point)
                     [kb10; kb50; api5])).
Proof.
  intros Hkb Hrun Hapi.
  unfold infer_location, bind.
  destruct (kb_locations point_distance point location_query max_distance)
    as [|kb50 [|kb10 [|? ?]]]; simpl in Hkb;
    try (inversion Hkb as [|? ? ? ? ? Hkb']; inversion Hkb'; fail).
  2:{ inversion Hkb as [|? ? ? ? ? Hkb']; subst.
      inversion Hkb' as [|? ? ? ? ? Hkb'']; subst. inversion Hkb''. }
  inversion Hkb as [|? ? ? ? H50 Hkb']; subst.
  inversion Hkb' as [|? ? ? ? H10 _]; subst.
  destruct api as [|api5 [|api30 [|? ?]]]; simpl in Hapi;
    try (inversion Hapi as [|? ? ? ? ? Hapi']; inversion Hapi'; fail).
  2:{ inversion Hapi as [|? ? ? ? ? Hapi']; subst.
      inversion Hapi' as [|? ? ? ? ? Hapi'']; subst. inversion Hapi''. }
  inversion Hapi as [|? ? ? ? H5 Hapi']; subst.
  inversion Hapi' as [|? ? ? ? H30 _]; subst.
  exists kb50, kb10, api5, api30. repeat split.
  simpl. rewrite Hrun. simpl.
  assert (E1 : Qle_bool (distance api5) (distance api30) = true).
  { apply Qle_bool_iff. rewrite H5, H30. discriminate. }
  assert (E2 : Qle_bool (distance kb50) (distance kb10) = false).
  { destruct (Qle_bool (distance kb50) (distance kb10)) eqn:E;
      [|reflexivity].
    apply Qle_bool_iff in E. rewrite H50, H10 in E.
    exfalso. now apply E. }
  rewrite E1, E2. reflexivity.
Qed.

(** C10. With a knowledge base that gives at least one candidate and limit
    0, [infer_location] raises IndexError: the slice [[:0]] is empty and
    its first item is read. No provider is queried on the way. *)
Theorem infer_location_limit_zero_raises point
    (query_kb : Point -> Q -> list (string * Point * Extra))
    max_distance use_google google_key use_foursquare foursquare_key
    (w : World) :
  query_kb point max_distance <> [] ->
  infer_location point_distance requests_get (J:=J) point (Some query_kb)
    max_distance use_google google_key use_foursquare foursquare_key 0 w
  = (w, inl IndexError).
Proof.
  intro Hne. unfold infer_location, bind, kb_locations.
  destruct (query_kb point max_distance) as [|row rows]; [congruence|].
  reflexivity.
Qed.

End ResolverFacts.

(* ================================================================== *)
(** * Properties of [Location] serialisation *)

Section LocationFacts.
Variable J : Type.
Variable Point_to_json : Point -> J.
Variable point_distance : Point -> Point -> Q.

(** C9. Serialising a [Location] whose centroid is a [Point] and reading
    the document back keeps the label and gives no alternatives, but the
    position read back is the JSON form of the point, stored as it is: it
    is not the [Point] the location had, and the methods that use the
    centroid as a [Point] ([to_json], [distance]) raise on the result. *)
Theorem from_json_to_json (lbl : string) (p : Point)
    (alternatives : list Candidate) :
  let loc := Location.Location lbl (Location.PointObj p) alternatives in
  exists doc,
    Location.to_json Point_to_json loc = inr doc
    /\ Location.label (Location.from_json doc) = Location.label loc
    /\ Location.other (Location.from_json doc) = []
    /\ Location.centroid (Location.from_json doc)
       = Location.JsonForm (Point_to_json p)
    /\ Location.centroid (Location.from_json doc) <> Location.centroid loc
    /\ Location.to_json Point_to_json (Location.from_json doc)
       = inl AttributeError
    /\ (forall q,
          Location.distance point_distance (Location.from_json doc) q
          = inl AttributeError).
Proof.
  intro loc. eexists. split; [reflexivity|].
  simpl. repeat split; try reflexivity. discriminate.
Qed.

(** Whatever a document holds under ['other'], none of it is read back. *)
Lemma from_json_drops_other (lbl : string) (pos : J)
    (alternatives : list Candidate) :
  Location.other (Location.from_json (Location.mkJson lbl pos alternatives))
  = [].
Proof. reflexivity. Qed.

End LocationFacts.

(* ================================================================== *)
(** * The properties on concrete inputs *)

Lemma flat_distance_proper (p a b : Point) :
  point_eqb a b = true ->
  (Example.flat_distance p a == Example.flat_distance p b)%Q.
Proof.
  unfold point_eqb. intro H. apply andb_true_iff in H.
  destruct H as [Hlat Hlon].
  apply Qeq_bool_iff in Hlat. apply Qeq_bool_iff in Hlon.
  unfold Example.flat_distance. now rewrite Hlat, Hlon.
Qed.

(** Of four cached points at 30, 20, 10 and 5 m, a look-up with threshold
    20 returns the value of the third: the first two are not strictly
    closer than 20 m. *)
Lemma from_cache_first_within_witness :
  from_cache Example.flat_distance Example.cache4 Example.origin 20
  = Some [Example.cand "near" 10 GOOGLE].
Proof.
  apply (proj1 (from_cache_first_within Example.flat_distance
                  Example.cache4 Example.origin 20 eq_refl)
           [(Example.north 30, [Example.cand "far" 30 GOOGLE]);
            (Example.north 20, [Example.cand "edge" 20 GOOGLE])]
           (Example.north 10) [Example.cand "near" 10 GOOGLE]
           [(Example.north 5, [Example.cand "nearest" 5 GOOGLE])]).
  - reflexivity.
  - repeat constructor; intro H; vm_compute in H; discriminate H.
  - vm_compute. reflexivity.
Defined.

(** A list inserted under a point 2 m away, in a cache whose only other
    point is 30 m away: with radius 10 the empty list makes the adapter send
    its request, and a non-empty list is what the adapter returns. *)
Lemma insert_then_lookup_first_key_witness :
  (let w1 := fst (insert_cache Google (Example.north 2) [] Example.world_far)
   in
   from_cache Example.flat_distance (cache_of Google w1) Example.origin 10
   = Some []
   /\ trace (fst (query Example.flat_distance Example.online_empty Google
                    Example.origin 10 Example.api_key w1))
      = [EvCacheLookup Google Example.origin 10;
         EvGet (request_of Google Example.origin 10 Example.api_key)])
  /\ (let values := [Example.cand "Cafe" 2 GOOGLE] in
      let w2 :=
        fst (insert_cache Google (Example.north 2) values Example.world_far)
      in
      query Example.flat_distance Example.online_empty Google Example.origin
        10 Example.api_key w2
      = (mkWorld (GG_CACHE w2) (FS_CACHE w2)
           [EvCacheLookup Google Example.origin 10;
            EvCacheLookup Google Example.origin 10],
         inr values)).
Proof.
  destruct (@insert_then_lookup_first_key Example.flat_distance
              Example.online_empty Google Example.world_far Example.origin
              (Example.north 2) 10 Example.api_key) as [Hempty Hfull].
  - reflexivity.
  - intros k' Hk'. now apply flat_distance_proper.
  - vm_compute. reflexivity.
  - repeat constructor. intro H. vm_compute in H. discriminate H.
  - reflexivity.
  - split; [exact Hempty|].
    apply (Hfull [Example.cand "Cafe" 2 GOOGLE]). discriminate.
Defined.

(** C6 fails as stated. The Google cache already holds a non-empty list
    under a point 1 m from the query point. An empty list inserted under a
    point 2 m away (within the radius 10) is not met by the look-up, which
    returns the older list: the adapter returns it and sends no request. A
    non-empty list inserted under that point is not what the look-up
    returns either. *)
Lemma insert_then_lookup_counterexample :
  let older := [Example.cand "near" 1 GOOGLE] in
  let newer := [Example.cand "Cafe" 2 GOOGLE] in
  within Example.flat_distance Example.origin 10 (Example.north 2)
  /\ (let w1 :=
        fst (insert_cache Google (Example.north 2) [] Example.world_near) in
      get point_eqb (Example.north 2) (GG_CACHE w1) = Some []
      /\ from_cache Example.flat_distance (GG_CACHE w1) Example.origin 10
         = Some older
      /\ query Example.flat_distance Example.online Google Example.origin 10
           Example.api_key w1
         = (mkWorld (GG_CACHE w1) (FS_CACHE w1)
              [EvCacheLookup Google Example.origin 10;
               EvCacheLookup Google Example.origin 10],
            inr older))
  /\ (let w2 :=
        fst (insert_cache Google (Example.north 2) newer Example.world_near)
      in
      get point_eqb (Example.north 2) (GG_CACHE w2) = Some newer
      /\ from_cache Example.flat_distance (GG_CACHE w2) Example.origin 10
         = Some older
      /\ older <> newer).
Proof.
  repeat split; try reflexivity; discriminate.
Qed.

(** A provider answering 500 leaves the caches empty; a provider answering
    200 with no results has the empty list cached under the query point. *)
Lemma query_caches_only_success_witness :
  query Example.flat_distance Example.failing Google Example.origin 10
    Example.api_key Example.empty_world
  = (mkWorld [] []
       [EvCacheLookup Google Example.origin 10;
        EvGet (request_of Google Example.origin 10 Example.api_key)],
     inr [])
  /\ get point_eqb Example.origin
       (cache_of Foursquare
          (fst (query Example.flat_distance Example.online_empty Foursquare
                  Example.origin 10 Example.api_key Example.empty_world)))
     = Some [].
Proof.
  split.
  - apply (proj1 (@query_caches_only_success Example.flat_distance
                    Example.failing Google Example.origin 10
                    Example.api_key Example.empty_world eq_refl eq_refl)).
    discriminate.
  - apply (proj2 (proj2 (@query_caches_only_success Example.flat_distance
                    Example.online_empty Foursquare Example.origin 10
                    Example.api_key Example.empty_world eq_refl eq_refl)));
      reflexivity.
Defined.

(** A knowledge base of two places and limit 0. *)
Lemma infer_location_limit_zero_raises_witness :
  infer_location Example.flat_distance Example.online (J:=unit)
    Example.origin (Some Example.knowledge_base) 100 true Example.api_key
    true Example.api_key 0 Example.empty_world
  = (Example.empty_world, inl IndexError).
Proof.
  apply (@infer_location_limit_zero_raises Example.flat_distance
           Example.online unit unit Example.origin Example.knowledge_base
           100 true Example.api_key true Example.api_key
           Example.empty_world).
  discriminate.
Defined.

(** The knowledge base gives places at 50 m and 10 m, Google one at 5 m and
    Foursquare one at 30 m; with limit 3 the alternatives are "Home" (10 m),
    "Work" (50 m) and "Cafe" (5 m). *)
Lemma infer_location_merge_order_witness :
  exists w' loc,
    infer_location Example.flat_distance Example.online (J:=unit)
      Example.origin (Some Example.knowledge_base) 100 true Example.api_key
      true Example.api_key 3 Example.empty_world
    = (w', inr loc)
    /\ Location.label loc = "Home"%string
    /\ map label (Location.other loc) = ["Home"; "Work"; "Cafe"]%string.
Proof.
  destruct (api_locations_of Example.flat_distance Example.online
              Example.origin 100 true Example.api_key true Example.api_key
              Example.empty_world) as [w' [e|api]] eqn:Hrun;
    [vm_compute in Hrun; discriminate Hrun|].
  destruct (@infer_location_merge_order Example.flat_distance Example.online
              unit unit Example.origin (Some Example.knowledge_base) 100
              true Example.api_key true Example.api_key
              Example.empty_world w' api)
    as (kb50 & kb10 & api5 & api30 & Hkb & Hapi & Hloc).
  - repeat constructor; vm_compute; reflexivity.
  - exact Hrun.
  - vm_compute in Hrun. inversion Hrun; subst.
    repeat constructor; vm_compute; reflexivity.
  - vm_compute in Hkb. inversion Hkb; subst.
    vm_compute in Hrun. inversion Hrun; subst.
    eexists. eexists. split; [exact Hloc|].
    split; reflexivity.
Defined.

(** C1 fails as stated: in the scenario of the claim the alternatives are
    two knowledge-base candidates followed by one provider candidate, at
    distances 10, 50 and 5, not [KB@10, API@5, API@30]. *)
Lemma infer_location_merge_order_counterexample :
  exists w' api loc,
    Forall2 Qeq
      (map distance
         (kb_locations Example.flat_distance Example.origin
            (Some Example.knowledge_base) 100))
      [50; 10]%Q
    /\ api_locations_of Example.flat_distance Example.online Example.origin
         100 true Example.api_key true Example.api_key Example.empty_world
       = (w', inr api)
    /\ Forall2 Qeq (map distance api) [5; 30]%Q
    /\ infer_location Example.flat_distance Example.online (J:=unit)
         Example.origin (Some Example.knowledge_base) 100 true
         Example.api_key true Example.api_key 3 Example.empty_world
       = (w', inr loc)
    /\ map suggestion_type (Location.other loc) = [KB; KB; GOOGLE]
    /\ Forall2 Qeq (map distance (Location.other loc)) [10; 50; 5]%Q
    /\ ~ Forall2 Qeq (map distance (Location.other loc)) [10; 5; 30]%Q.
Proof.
  eexists. eexists. eexists.
  split; [repeat constructor; vm_compute; reflexivity|].
  split; [vm_compute; reflexivity|].
  split; [repeat constructor; vm_compute; reflexivity|].
  split; [vm_compute; reflexivity|].
  split; [reflexivity|].
  split; [repeat constructor; vm_compute; reflexivity|].
  intro H. inversion H as [|? ? ? ? _ H']; subst.
  inversion H' as [|? ? ? ? H50 _]; subst.
  vm_compute in H50. discriminate H50.
Qed.

(** With two knowledge-base places, two provider candidates and limit 3
    the alternatives are a run of knowledge-base candidates that starts
    with the one giving the label, then a run of provider candidates;
    without a knowledge base the two provider candidates come back in
    ascending order under the label ['#?']. *)
Lemma infer_location_alternatives_witness :
  (exists w' (loc : Location.t unit) first ks aps,
      infer_location Example.flat_distance Example.online Example.origin
        (Some Example.knowledge_base) 100 true Example.api_key true
        Example.api_key 3 Example.empty_world
      = (w', inr loc)
      /\ Location.other loc = (first :: ks) ++ aps
      /\ Location.label loc = label first
      /\ Forall (fun c => suggestion_type c = KB) (first :: ks)
      /\ ascending distance (first :: ks)
      /\ ascending distance aps)
  /\ (exists w' (loc : Location.t unit),
        infer_location Example.flat_distance Example.online (Extra:=unit)
          Example.origin None 100 true Example.api_key true
          Example.api_key 3 Example.empty_world
        = (w', inr loc)
        /\ Location.label loc = "#?"%string
        /\ ascending distance (Location.other loc)
        /\ List.length (Location.other loc) = 2%nat).
Proof.
  split.
  - destruct (infer_location Example.flat_distance Example.online
                (J:=unit) Example.origin (Some Example.knowledge_base) 100
                true Example.api_key true Example.api_key 3
                Example.empty_world) as [w' [e|loc]] eqn:Hrun;
      [vm_compute in Hrun; discriminate Hrun|].
    destruct (@infer_location_alternatives Example.flat_distance
                Example.online unit unit Example.origin
                (Some Example.knowledge_base) 100 true Example.api_key true
                Example.api_key 3 Example.empty_world w' loc Hrun)
      as (api & _ & _ & Hkb).
    destruct Hkb as (first & ks & aps & Ho & Hl & Hk & _ & Ht & Ha & _);
      [discriminate|].
    exists w', loc, first, ks, aps. repeat split; assumption.
  - destruct (infer_location Example.flat_distance Example.online
                (Extra:=unit) (J:=unit) Example.origin None 100 true
                Example.api_key true Example.api_key 3 Example.empty_world)
      as [w' [e|loc]] eqn:Hrun; [vm_compute in Hrun; discriminate Hrun|].
    destruct (@infer_location_alternatives Example.flat_distance
                Example.online unit unit Example.origin None 100 true
                Example.api_key true Example.api_key 3
                Example.empty_world w' loc Hrun)
      as (api & Hfrom & Hno & _).
    destruct (Hno eq_refl) as (Hl & Ha & _ & Hlen).
    exists w', loc. repeat split; try assumption.
    rewrite Hlen.
    destruct Hfrom as [[_ Hq]|[Hlt _]]; [|vm_compute in Hlt; discriminate].
    vm_compute in Hq. now inversion Hq.
Defined.

(** C2 fails as stated, on both counts. With the knowledge base of two
    places and limit 3 the alternatives are at distances 10, 50 and 5: not
    in ascending order. Without a knowledge base the alternatives are not
    empty and the label is ['#?'], not the label "Cafe" of the first one. *)
Lemma infer_location_alternatives_counterexample :
  (exists w' loc,
      infer_location Example.flat_distance Example.online (J:=unit)
        Example.origin (Some Example.knowledge_base) 100 true
        Example.api_key true Example.api_key 3 Example.empty_world
      = (w', inr loc)
      /\ ~ ascending distance (Location.other loc))
  /\ (exists w' loc first rest,
        infer_location Example.flat_distance Example.online (Extra:=unit)
          (J:=unit) Example.origin None 100 true Example.api_key true
          Example.api_key 3 Example.empty_world
        = (w', inr loc)
        /\ Location.other loc = first :: rest
        /\ label first = "Cafe"%string
        /\ Location.label loc = "#?"%string
        /\ Location.label loc <> label first).
Proof.
  split.
  - eexists. eexists. split; [vm_compute; reflexivity|].
    simpl. intro H. unfold ascending in H.
    inversion H as [|? ? Htail _]; subst.
    inversion Htail as [|? ? _ Hhd]; subst.
    inversion Hhd as [|? ? Hle]; subst.
    vm_compute in Hle. apply Hle. reflexivity.
  - eexists. eexists. eexists. eexists.
    split; [vm_compute; reflexivity|].
    split; [reflexivity|].
    repeat split. discriminate.
Qed.

(* ================================================================== *)
(** * Further properties of the caches *)

Lemma point_eqb_trans (a b c : Point) :
  point_eqb a b = true -> point_eqb b c = true -> point_eqb a c = true.
Proof.
  unfold point_eqb. intros H1 H2.
  apply andb_true_iff in H1. apply andb_true_iff in H2.
  destruct H1 as [H1 H1'], H2 as [H2 H2'].
  apply andb_true_iff. split; eapply Qeq_bool_trans; eauto.
Qed.

Lemma get_set_other (k k' : Point) (v : list Candidate) (d : Cache) :
  point_eqb k' k = false ->
  get point_eqb k' (set point_eqb k v d) = get point_eqb k' d.
Proof.
  intro Hk. induction d as [|[k0 v0] d IH]; simpl.
  - now rewrite point_eqb_sym, Hk.
  - destruct (point_eqb k0 k) eqn:E; simpl.
    + destruct (point_eqb k0 k') eqn:F; [|reflexivity].
      rewrite point_eqb_sym in F.
      now rewrite (point_eqb_trans _ _ _ F E) in Hk.
    + now rewrite IH.
Qed.

(** X1. What [google_insert_cache] and [foursquare_insert_cache] do to the
    world: the value is found again under the point it was stored under,
    what is stored under every other point stays, the other provider's
    cache and the trace stay, and a cache with pairwise different keys
    remains one. *)
Theorem insert_cache_round_trip (prov : Provider) (k : Point)
    (values : list Candidate) (w : World) :
  let w' := fst (insert_cache prov k values w) in
  get point_eqb k (cache_of prov w') = Some values
  /\ (forall k', point_eqb k' k = false ->
        get point_eqb k' (cache_of prov w')
        = get point_eqb k' (cache_of prov w))
  /\ (forall prov', prov' <> prov -> cache_of prov' w' = cache_of prov' w)
  /\ trace w' = trace w
  /\ (wf point_eqb (cache_of prov w) = true ->
      wf point_eqb (cache_of prov w') = true).
Proof.
  intro w'. subst w'.
  destruct (insert_cache_cache prov k values w) as [Hc Ht].
  rewrite Hc. repeat split.
  - apply get_set_same.
  - intros k' Hk'. now apply get_set_other.
  - intros prov' Hne. destruct prov, prov'; try congruence; reflexivity.
  - exact Ht.
  - apply wf_set. exact point_eqb_sym.
Qed.

Lemma get_In (k : Point) (v : list Candidate) (d : Cache) :
  get point_eqb k d = Some v -> exists k', In (k', v) d.
Proof.
  induction d as [|[k0 v0] d IH]; simpl; [discriminate|].
  destruct (point_eqb k0 k).
  - intros [= ->]. exists k0. now left.
  - intro H. destruct (IH H) as [k' Hk']. exists k'. now right.
Qed.

(** Storing under a key other than [k0] keeps the item of [k0] where it is,
    behind the same keys. *)
Lemma set_keeps_item (k k0 : Point) (v v0 : list Candidate)
    (pre post : Cache) :
  point_eqb k0 k = false ->
  exists pre' post',
    set point_eqb k v (pre ++ (k0, v0) :: post) = pre' ++ (k0, v0) :: post'
    /\ map fst pre' = map fst pre.
Proof.
  intro Hk. induction pre as [|[k1 v1] pre IH]; simpl.
  - rewrite Hk. now exists [], (set point_eqb k v post).
  - destruct (point_eqb k1 k).
    + now exists ((k1, v) :: pre), post.
    + destruct IH as (pre' & post' & Heq & Hkeys).
      exists ((k1, v1) :: pre'), post'. simpl. now rewrite Heq, Hkeys.
Qed.

Section CacheUse.
Variable point_distance : Point -> Point -> Q.
Variable requests_get : list Event -> Request -> Response.

Lemma from_cache_scan_In cache point threshold v (entries : list Point) :
  from_cache_scan point_distance cache point threshold entries = Some v ->
  exists k, In (k, v) cache.
Proof.
  induction entries as [|k entries IH]; simpl; [discriminate|].
  destruct (Qlt_bool (point_distance point k) threshold); [|exact IH].
  apply get_In.
Qed.

Lemma from_cache_In cache point threshold v :
  from_cache point_distance cache point threshold = Some v ->
  exists k, In (k, v) cache.
Proof. apply from_cache_scan_In. Qed.

(** A look-up that met a key other than the one stored under next meets it
    again after the store. *)
Lemma from_cache_set_other (pre post : Cache) k0 v0 k v point threshold :
  wf point_eqb (pre ++ (k0, v0) :: post) = true ->
  Forall (fun e => ~ within point_distance point threshold (fst e)) pre ->
  within point_distance point threshold k0 ->
  point_eqb k0 k = false ->
  from_cache point_distance (set point_eqb k v (pre ++ (k0, v0) :: post))
    point threshold
  = Some v0.
Proof.
  intros Hwf Hpre Hk0 Hne.
  pose proof (wf_set point_eqb point_eqb_sym k v _ Hwf) as Hwf'.
  destruct (@set_keeps_item k k0 v v0 pre post Hne)
    as (pre' & post' & Heq & Hkeys).
  rewrite Heq in *. apply from_cache_at; auto.
  apply (proj1 (Forall_map fst
                  (fun k => ~ within point_distance point threshold k) pre')).
  rewrite Hkeys. now apply Forall_map.
Qed.

(** The adapters, in one equation. *)
Lemma query_unfold prov point max_distance key w :
  query point_distance requests_get prov point max_distance key w
  = if negb (truthy_str key) then (w, inr [])
    else
      let hit :=
        from_cache point_distance (cache_of prov w) point max_distance in
      let tr := trace w ++ [EvCacheLookup prov point max_distance] in
      if truthy_list hit then
        (mkWorld (GG_CACHE w) (FS_CACHE w)
           (tr ++ [EvCacheLookup prov point max_distance]),
         inr (hit_list hit))
      else
        let rq := request_of prov point max_distance key in
        let resp := requests_get tr rq in
        let w2 := mkWorld (GG_CACHE w) (FS_CACHE w) (tr ++ [EvGet rq]) in
        if negb (status_code resp =? 200)%Z then (w2, inr [])
        else
          match results resp with
          | None => (w2, inl PayloadError)
          | Some rs =>
              match normalise point_distance prov point rs with
              | inl e => (w2, inl e)
              | inr cs => (fst (insert_cache prov point cs w2), inr cs)
              end
          end.
Proof.
  destruct prov; simpl;
    unfold query_google, query_foursquare, bind, cache_lookup, http_get,
      ret, raise, request_of;
    (destruct (truthy_str key); simpl; [|reflexivity]);
    match goal with
    | |- context [truthy_list ?h] => destruct (truthy_list h)
    end; simpl; try reflexivity;
    match goal with
    | |- context [requests_get ?t ?r] => destruct (requests_get t r) as [sc rs]
    end; simpl;
    (destruct (sc =? 200)%Z; simpl; [|reflexivity]);
    (destruct rs as [rs|]; simpl; [|reflexivity]);
    unfold lift, bind, ret, raise;
    match goal with
    | |- context [google_results ?d ?p ?l] => destruct (google_results d p l)
    | |- context [foursquare_results ?l] => destruct (foursquare_results l)
    end; reflexivity.
Qed.

Lemma normalise_error prov point rs e :
  normalise point_distance prov point rs = inl e -> e = PayloadError.
Proof.
  destruct prov; simpl; induction rs as [|[n la ln tys|n d cats] rs IH];
    simpl; try discriminate; try (now intros [= <-]).
  - destruct (google_results point_distance point rs);
      [intros [= <-]; now apply IH|discriminate].
  - destruct (foursquare_results rs);
      [intros [= <-]; now apply IH|discriminate].
Qed.

Lemma normalise_tagged prov point rs cs :
  normalise point_distance prov point rs = inr cs ->
  Forall (fun c => suggestion_type c = tag prov) cs
  /\ List.length cs = List.length rs.
Proof.
  revert cs.
  destruct prov; simpl; induction rs as [|[n la ln tys|n d cats] rs IH];
    simpl; intros cs H; try discriminate;
    try (injection H as <-; now split).
  - destruct (google_results point_distance point rs) as [|cs'];
      [discriminate|]. injection H as <-.
    destruct (IH cs' eq_refl). split; [now constructor|simpl; congruence].
  - destruct (foursquare_results rs) as [|cs']; [discriminate|].
    injection H as <-.
    destruct (IH cs' eq_refl). split; [now constructor|simpl; congruence].
Qed.

Lemma requests_in_app (l1 l2 : list Event) :
  requests_in (l1 ++ l2) = requests_in l1 ++ requests_in l2.
Proof. unfold requests_in. apply flat_map_app. Qed.

(** An adapter call either keeps its cache or stores the list it returns
    under the query point. *)
Lemma query_cache_after prov point max_distance key w :
  let run :=
    query point_distance requests_get prov point max_distance key w in
  cache_of prov (fst run) = cache_of prov w
  \/ exists cs,
       snd run = inr cs
       /\ cache_of prov (fst run)
          = set point_eqb point cs (cache_of prov w).
Proof.
  intro run. subst run. rewrite query_unfold.
  destruct (truthy_str key); simpl; [|now left].
  destruct (truthy_list _); simpl; [left; now destruct prov|].
  destruct (negb _); [left; now destruct prov|].
  destruct (results _) as [rs|]; [|left; now destruct prov].
  destruct (normalise point_distance prov point rs) as [e|cs];
    [left; now destruct prov|].
  right. exists cs. split; [reflexivity|]. cbn [fst].
  match goal with
  | |- context [insert_cache prov point cs ?w2] =>
      destruct (insert_cache_cache prov point cs w2) as [-> _]
  end.
  now destruct prov.
Qed.

(** X2. Whatever an adapter call does, it leaves the other provider's
    cache alone; its own cache is either unchanged or has the returned list
    stored under the query point; a cache with pairwise different keys
    remains one; and the trace only grows, by at most one HTTP request. *)
Theorem query_frame (prov : Provider) (point : Point) (max_distance : Q)
    (key : option string) (w : World) :
  let run :=
    query point_distance requests_get prov point max_distance key w in
  (forall prov', prov' <> prov ->
     cache_of prov' (fst run) = cache_of prov' w)
  /\ (cache_of prov (fst run) = cache_of prov w
      \/ exists cs,
           snd run = inr cs
           /\ cache_of prov (fst run)
              = set point_eqb point cs (cache_of prov w))
  /\ (wf point_eqb (cache_of prov w) = true ->
      wf point_eqb (cache_of prov (fst run)) = true)
  /\ exists evs,
       trace (fst run) = trace w ++ evs
       /\ (List.length (requests_in evs) <= 1)%nat.
Proof.
  intro run. subst run. rewrite query_unfold.
  destruct (truthy_str key); simpl.
  2:{ split; [|split; [|split]]; auto.
      exists []. rewrite app_nil_r. split; [reflexivity|]. simpl. lia. }
  destruct (truthy_list _); simpl.
  { split; [|split; [|split]].
    - intros prov' _. now destruct prov'.
    - left. now destruct prov.
    - now destruct prov.
    - eexists. rewrite <- app_assoc. split; [reflexivity|]. simpl. lia. }
  set (rq := request_of prov point max_distance key).
  set (tr := trace w ++ [EvCacheLookup prov point max_distance]).
  assert (Hsame : forall r : exn + list Candidate,
    let run := (mkWorld (GG_CACHE w) (FS_CACHE w) (tr ++ [EvGet rq]), r) in
    (forall prov', prov' <> prov ->
       cache_of prov' (fst run) = cache_of prov' w)
    /\ (cache_of prov (fst run) = cache_of prov w
        \/ exists cs,
             snd run = inr cs
             /\ cache_of prov (fst run)
                = set point_eqb point cs (cache_of prov w))
    /\ (wf point_eqb (cache_of prov w) = true ->
        wf point_eqb (cache_of prov (fst run)) = true)
    /\ exists evs,
         trace (fst run) = trace w ++ evs
         /\ (List.length (requests_in evs) <= 1)%nat).
  { intros r. simpl. split; [|split; [|split]].
    - intros prov' _. now destruct prov'.
    - left. now destruct prov.
    - now destruct prov.
    - eexists. unfold tr. rewrite <- app_assoc. split; [reflexivity|].
      simpl. lia. }
  destruct (negb _); [apply Hsame|].
  destruct (results _) as [rs|]; [|apply Hsame].
  destruct (normalise point_distance prov point rs) as [e|cs];
    [apply Hsame|].
  cbn [fst snd].
  destruct (insert_cache_cache prov point cs
              (mkWorld (GG_CACHE w) (FS_CACHE w) (tr ++ [EvGet rq])))
    as [Hc Ht].
  assert (Hw : cache_of prov
                 (mkWorld (GG_CACHE w) (FS_CACHE w) (tr ++ [EvGet rq]))
               = cache_of prov w) by now destruct prov.
  rewrite Hw in Hc. split; [|split; [|split]].
  - intros prov' Hne. destruct prov, prov'; try congruence; reflexivity.
  - right. exists cs. now split.
  - intro Hwf. rewrite Hc. apply wf_set; [exact point_eqb_sym|exact Hwf].
  - eexists. rewrite Ht. simpl. unfold tr. rewrite <- app_assoc.
    split; [reflexivity|]. simpl. lia.
Qed.

(** X3. A 200 response whose body has no result list, or holds an entry of
    another shape, makes the adapter raise after the request was sent:
    nothing is stored in either cache. *)
Theorem query_malformed_response (prov : Provider) (point : Point)
    (max_distance : Q) (key : option string) (w : World) :
  truthy_str key = true ->
  truthy_list
    (from_cache point_distance (cache_of prov w) point max_distance)
  = false ->
  let rq := request_of prov point max_distance key in
  let tr := trace w ++ [EvCacheLookup prov point max_distance] in
  let resp := requests_get tr rq in
  status_code resp = 200%Z ->
  (results resp = None
   \/ exists rs e,
        results resp = Some rs
        /\ normalise point_distance prov point rs = inl e) ->
  query point_distance requests_get prov point max_distance key w
  = (mkWorld (GG_CACHE w) (FS_CACHE w) (tr ++ [EvGet rq]),
     inl PayloadError).
Proof.
  intros Hkey Hmiss rq tr resp Hst Hbad.
  rewrite query_unfold, Hkey. simpl. rewrite Hmiss.
  fold tr. fold rq. fold resp. rewrite Hst. simpl.
  destruct Hbad as [->|(rs & e & -> & Hn)]; [reflexivity|].
  rewrite Hn. now rewrite (normalise_error _ _ _ Hn).
Qed.

End CacheUse.

Section CacheReuse.
Variable point_distance : Point -> Point -> Q.
Variable requests_get : list Event -> Request -> Response.

(** X4. After an adapter got a non-empty result from its provider for a
    point that no cached key was within the radius of, the same call again
    returns that result from the cache and sends no request. The point must
    be within the radius of itself, and the distance to a key must depend
    on its coordinates only. *)
Theorem query_again_is_cached (prov : Provider) (point : Point)
    (max_distance : Q) (key : option string) (w : World)
    (rs : list Place) (cs : list Candidate) :
  truthy_str key = true ->
  wf point_eqb (cache_of prov w) = true ->
  Forall (fun e => ~ within point_distance point max_distance (fst e))
    (cache_of prov w) ->
  within point_distance point max_distance point ->
  (forall k', point_eqb k' point = true ->
     (point_distance point k' == point_distance point point)%Q) ->
  let rq := request_of prov point max_distance key in
  let resp :=
    requests_get (trace w ++ [EvCacheLookup prov point max_distance]) rq in
  status_code resp = 200%Z ->
  results resp = Some rs ->
  normalise point_distance prov point rs = inr cs ->
  cs <> [] ->
  let w1 :=
    fst (query point_distance requests_get prov point max_distance key w) in
  query point_distance requests_get prov point max_distance key w1
  = (mkWorld (GG_CACHE w1) (FS_CACHE w1)
       (trace w1 ++ [EvCacheLookup prov point max_distance;
                     EvCacheLookup prov point max_distance]),
     inr cs)
  /\ requests_in (trace w1) = requests_in (trace w) ++ [rq].
Proof.
  intros Hkey Hwf Hnone Hself Hproper rq resp Hst Hrs Hcs Hne w1.
  assert (Hw1 : cache_of prov w1 = set point_eqb point cs (cache_of prov w)
                /\ trace w1
                   = (trace w ++ [EvCacheLookup prov point max_distance])
                     ++ [EvGet rq]).
  { subst w1. rewrite query_unfold, Hkey. simpl.
    rewrite (from_cache_none Hnone). simpl.
    fold rq. fold resp. rewrite Hst, Hrs. simpl. rewrite Hcs.
    cbn [fst].
    destruct (insert_cache_cache prov point cs
                (mkWorld (GG_CACHE w) (FS_CACHE w)
                   ((trace w ++ [EvCacheLookup prov point max_distance])
                    ++ [EvGet rq]))) as [-> ->].
    split; [now destruct prov|reflexivity]. }
  destruct Hw1 as [Hc Ht]. split.
  - apply query_hit; auto. rewrite Hc. apply from_cache_set; auto.
    eapply incl_Forall; [|exact Hnone].
    clear. induction (cache_of prov w) as [|[k0 v0] d IH]; simpl.
    + apply incl_refl.
    + destruct (point_eqb k0 point).
      * apply incl_nil_l.
      * apply incl_cons; [now left|]. now apply incl_tl.
  - rewrite Ht, !requests_in_app. simpl. now rewrite app_nil_r.
Qed.

(** X5. An empty list cached under a nearby point is never got rid of:
    when the first key within the radius holds the empty list and is not
    the query point, the adapter sends its request, and whatever the
    provider answers the look-up still ends on that empty list afterwards,
    so that every later call sends a request as well. *)
Theorem query_stale_empty_entry (prov : Provider) (point : Point)
    (max_distance : Q) (key : option string) (w : World)
    (pre post : Cache) (k0 : Point) :
  truthy_str key = true ->
  cache_of prov w = pre ++ (k0, []) :: post ->
  wf point_eqb (cache_of prov w) = true ->
  Forall (fun e => ~ within point_distance point max_distance (fst e)) pre ->
  within point_distance point max_distance k0 ->
  point_eqb k0 point = false ->
  let w' :=
    fst (query point_distance requests_get prov point max_distance key w) in
  requests_in (trace w')
  = requests_in (trace w) ++ [request_of prov point max_distance key]
  /\ from_cache point_distance (cache_of prov w') point max_distance
     = Some [].
Proof.
  intros Hkey Hcache Hwf Hpre Hk0 Hne w'.
  assert (Hlook : from_cache point_distance (cache_of prov w) point
                    max_distance = Some []).
  { rewrite Hcache in *. now apply from_cache_at. }
  split.
  - subst w'. rewrite query_miss_trace; auto.
    + rewrite requests_in_app. reflexivity.
    + now rewrite Hlook.
  - destruct (query_cache_after point_distance requests_get prov point
                max_distance key w) as [Hsame|(cs & _ & Hset)].
    + subst w'. now rewrite Hsame.
    + subst w'. rewrite Hset, Hcache.
      rewrite Hcache in Hwf. now apply from_cache_set_other.
Qed.

(** X6. With a radius of zero or less and distances that are never
    negative, no cached key is ever a hit: the look-up finds nothing and an
    adapter with a key sends its request on every call. *)
Theorem query_nonpositive_radius (prov : Provider) (point : Point)
    (max_distance : Q) (key : option string) (w : World) :
  (forall k, (0 <= point_distance point k)%Q) ->
  (max_distance <= 0)%Q ->
  truthy_str key = true ->
  from_cache point_distance (cache_of prov w) point max_distance = None
  /\ requests_in
       (trace (fst (query point_distance requests_get prov point
                      max_distance key w)))
     = requests_in (trace w) ++ [request_of prov point max_distance key].
Proof.
  intros Hpos Hrad Hkey.
  assert (Hnone : from_cache point_distance (cache_of prov w) point
                    max_distance = None).
  { apply from_cache_none. apply Forall_forall. intros e _ Hlt.
    unfold within in Hlt. apply (Qlt_not_le _ _ Hlt).
    eapply Qle_trans; [exact Hrad|apply Hpos]. }
  split; [exact Hnone|].
  rewrite query_miss_trace; auto.
  - rewrite requests_in_app. reflexivity.
  - now rewrite Hnone.
Qed.

Lemma set_tagged prov k cs (cache : Cache) :
  Forall (fun c => suggestion_type c = tag prov) cs ->
  cache_tagged prov cache ->
  cache_tagged prov (set point_eqb k cs cache).
Proof.
  intros Hcs. unfold cache_tagged.
  induction 1 as [|[k0 v0] d H0 Hd IH]; simpl.
  - now repeat constructor.
  - destruct (point_eqb k0 k); constructor; auto.
Qed.

(** X7. Provenance is kept: when every candidate in a provider's cache
    carries that provider's tag, an adapter call returns only candidates
    with that tag and leaves the cache so tagged. *)
Theorem query_keeps_tags (prov : Provider) (point : Point)
    (max_distance : Q) (key : option string) (w : World) :
  cache_tagged prov (cache_of prov w) ->
  let run :=
    query point_distance requests_get prov point max_distance key w in
  cache_tagged prov (cache_of prov (fst run))
  /\ (forall cs, snd run = inr cs ->
        Forall (fun c => suggestion_type c = tag prov) cs).
Proof.
  intros Htag run. subst run. rewrite query_unfold.
  destruct (truthy_str key); simpl.
  2:{ split; [assumption|]. now intros cs [= <-]. }
  destruct (from_cache point_distance (cache_of prov w) point max_distance)
    as [[|c l]|] eqn:Hhit; simpl.
  2:{ split; [now destruct prov|]. intros cs [= <-].
      apply from_cache_In in Hhit. destruct Hhit as [k Hk].
      unfold cache_tagged in Htag. rewrite Forall_forall in Htag.
      apply (Htag _ Hk). }
  all: destruct (negb _); simpl;
    [split; [now destruct prov|now intros cs [= <-]]|];
    (destruct (results _) as [rs|]; simpl;
     [|split; [now destruct prov|discriminate]]);
    (destruct (normalise point_distance prov point rs) as [e|cs0] eqn:Hn;
     [split; [now destruct prov|discriminate]|]);
    apply normalise_tagged in Hn; destruct Hn as [Hcs0 _];
    cbn [fst snd];
    (split; [|now intros cs [= <-]]);
    match goal with
    | |- context [insert_cache ?p ?k ?c ?w2] =>
        destruct (insert_cache_cache p k c w2) as [-> _]
    end;
    apply set_tagged; auto; now destruct prov.
Qed.

End CacheReuse.

(* ================================================================== *)
(** * Further properties of the cluster engine *)

Lemma zget_set_same (k : Z) (v : list (Q * Q)) (d : dict Z (list (Q * Q))) :
  get Z.eqb k (set Z.eqb k v d) = Some v.
Proof.
  induction d as [|[k0 v0] d IH]; simpl.
  - now rewrite Z.eqb_refl.
  - destruct (k0 =? k)%Z eqn:E; simpl; now rewrite E.
Qed.

Lemma zget_set_other (k k' : Z) (v : list (Q * Q))
    (d : dict Z (list (Q * Q))) :
  (k =? k')%Z = false ->
  get Z.eqb k' (set Z.eqb k v d) = get Z.eqb k' d.
Proof.
  intro Hk. induction d as [|[k0 v0] d IH]; simpl.
  - now rewrite Hk.
  - destruct (k0 =? k)%Z eqn:E; simpl.
    + apply Z.eqb_eq in E. subst k0. now rewrite Hk.
    + now rewrite IH.
Qed.

Lemma skipn_nth_error {A} (l : list A) (n : nat) (x : A) :
  nth_error l n = Some x -> skipn n l = x :: skipn (S n) l.
Proof.
  revert n. induction l as [|y l IH]; intros [|n]; simpl; try discriminate.
  - now intros [= ->].
  - intro H. now rewrite (IH n H).
Qed.

(** What is found under a label after the grouping loop ran from index
    [n] over [labels], starting from the clusters [cs]. *)
Lemma group_fold_get (points : list (Q * Q)) (labels : list Z) :
  forall (n : nat) (cs : dict Z (list (Q * Q))),
    (n + List.length labels <= List.length points)%nat ->
    wf Z.eqb cs = true ->
    exists cs',
      fold_left (group_step points)
        (combine (seq n (List.length labels)) labels) (inr cs) = inr cs'
      /\ wf Z.eqb cs' = true
      /\ forall l,
           get Z.eqb l cs'
           = match get Z.eqb l cs, labelled l labels (skipn n points) with
             | Some old, ms => Some (old ++ ms)
             | None, [] => None
             | None, ms => Some ms
             end.
Proof.
  induction labels as [|l0 labels IH]; simpl; intros n cs Hlen Hwf.
  - exists cs. repeat split; auto. intro l. unfold labelled. simpl.
    destruct (get Z.eqb l cs); [now rewrite app_nil_r|reflexivity].
  - destruct (nth_error points n) as [p|] eqn:Hn;
      [|apply nth_error_None in Hn; lia].
    rewrite (skipn_nth_error _ _ Hn).
    set (cs1 := match get Z.eqb l0 cs with
                | Some members => set Z.eqb l0 (members ++ [p]) cs
                | None => set Z.eqb l0 [p] cs
                end).
    assert (Hwf1 : wf Z.eqb cs1 = true).
    { unfold cs1. destruct (get Z.eqb l0 cs);
        apply wf_set; auto using Z.eqb_sym. }
    destruct (IH (S n) cs1) as (cs' & Hfold & Hwf' & Hget); [lia|exact Hwf1|].
    exists cs'. split.
    { rewrite <- Hfold. unfold cs1. now destruct (get Z.eqb l0 cs). }
    split; [exact Hwf'|]. intro l. rewrite Hget.
    unfold labelled. simpl.
    destruct (l0 =? l)%Z eqn:E.
    + apply Z.eqb_eq in E. subst l0. simpl. unfold cs1.
      destruct (get Z.eqb l cs) as [old|]; rewrite zget_set_same.
      * now rewrite <- app_assoc.
      * reflexivity.
    + assert (Hsame : get Z.eqb l cs1 = get Z.eqb l cs).
      { unfold cs1. destruct (get Z.eqb l0 cs);
          now apply zget_set_other. }
      now rewrite Hsame.
Qed.

Lemma group_labels_get (points : list (Q * Q)) (labels : list Z) :
  (List.length labels <= List.length points)%nat ->
  exists clusters,
    group_labels points labels = inr clusters
    /\ wf Z.eqb clusters = true
    /\ forall l,
         get Z.eqb l clusters
         = match labelled l labels points with
           | [] => None
           | ms => Some ms
           end.
Proof.
  intro Hlen. unfold group_labels, enumerate.
  destruct (@group_fold_get points labels 0 []) as (cs & Hf & Hwf & Hget);
    auto.
  exists cs. repeat split; auto.
Qed.

Lemma labelled_In (l : Z) (labels : list Z) :
  forall points : list (Q * Q),
    (List.length labels <= List.length points)%nat ->
    In l labels -> labelled l labels points <> [].
Proof.
  unfold labelled.
  induction labels as [|l0 labels IH]; intros [|p points] Hlen Hin;
    simpl in *; try contradiction; try lia.
  destruct (l0 =? l)%Z eqn:E; simpl; [discriminate|].
  destruct Hin as [->|Hin]; [now rewrite Z.eqb_refl in E|].
  apply IH; [lia|assumption].
Qed.

Lemma In_get (l : Z) (members : list (Q * Q))
    (clusters : dict Z (list (Q * Q))) :
  wf Z.eqb clusters = true ->
  In (l, members) clusters -> get Z.eqb l clusters = Some members.
Proof.
  intros Hwf Hin. apply in_split in Hin. destruct Hin as (pre & post & ->).
  apply get_own; auto using Z.eqb_refl, Z.eqb_sym.
Qed.

(** X8. The grouping loop of [update_location_centroid], given no more
    labels than points, does not raise; the clusters have pairwise
    different labels, and under each label that occurs are exactly the
    points with that label, in the order of the history, while a label that
    does not occur is not a key. *)
Theorem group_labels_partition (points : list (Q * Q)) (labels : list Z) :
  (List.length labels <= List.length points)%nat ->
  exists clusters,
    group_labels points labels = inr clusters
    /\ wf Z.eqb clusters = true
    /\ (forall l, In l labels ->
          get Z.eqb l clusters = Some (labelled l labels points)
          /\ labelled l labels points <> [])
    /\ (forall l, ~ In l labels -> get Z.eqb l clusters = None)
    /\ (forall l members, In (l, members) clusters ->
          members = labelled l labels points /\ In l labels).
Proof.
  intro Hlen.
  destruct (group_labels_get points labels Hlen) as (cs & Hg & Hwf & Hget).
  exists cs. split; [exact Hg|]. split; [exact Hwf|].
  assert (Hnot : forall l, ~ In l labels -> labelled l labels points = []).
  { intros l Hl. unfold labelled.
    assert (H : forall lps : list (Z * (Q * Q)),
              (forall lp, In lp lps -> fst lp <> l) ->
              filter (fun lp => (fst lp =? l)%Z) lps = []).
    { induction lps as [|lp lps IH]; simpl; intro H; [reflexivity|].
      destruct (fst lp =? l)%Z eqn:E.
      - apply Z.eqb_eq in E. exfalso. apply (H lp); auto.
      - apply IH. intros lp' Hlp'. apply H. now right. }
    rewrite H; [reflexivity|].
    intros [l' p] Hlp Heq. simpl in Heq. subst l'. apply Hl.
    now apply in_combine_l in Hlp. }
  split; [|split].
  - intros l Hl. pose proof (labelled_In l labels points Hlen Hl) as Hne.
    split; [|exact Hne]. rewrite Hget.
    destruct (labelled l labels points); [congruence|reflexivity].
  - intros l Hl. rewrite Hget. now rewrite (Hnot l Hl).
  - intros l members Hin. apply In_get in Hin; [|exact Hwf].
    rewrite Hget in Hin.
    destruct (labelled l labels points) as [|m ms] eqn:E; [discriminate|].
    injection Hin as <-. split; [reflexivity|].
    destruct (in_dec Z.eq_dec l labels) as [Hl|Hl]; [exact Hl|].
    rewrite (Hnot l Hl) in E. discriminate.
Qed.

Lemma labelled_not_In (l : Z) (labels : list Z) (points : list (Q * Q)) :
  ~ In l labels -> labelled l labels points = [].
Proof.
  unfold labelled. revert points.
  induction labels as [|l0 labels IH]; intros [|p points] Hl; simpl;
    try reflexivity.
  destruct (l0 =? l)%Z eqn:E.
  - apply Z.eqb_eq in E. exfalso. apply Hl. now left.
  - apply IH. intro H. apply Hl. now right.
Qed.

Lemma zget_In (l : Z) (members : list (Q * Q))
    (clusters : dict Z (list (Q * Q))) :
  get Z.eqb l clusters = Some members -> In (l, members) clusters.
Proof.
  induction clusters as [|[k0 v0] d IH]; simpl; [discriminate|].
  destruct (k0 =? l)%Z eqn:E.
  - apply Z.eqb_eq in E. subst k0. intros [= ->]. now left.
  - intro H. right. now apply IH.
Qed.

Lemma select_step_inv (done : dict Z (list (Q * Q))) (st : Selection)
    (item : Z * list (Q * Q)) :
  selection_inv done st ->
  selection_inv (done ++ [item]) (select_step st item).
Proof.
  destruct item as [l c]. unfold selection_inv, select_step.
  destruct (0 <=? l)%Z eqn:El; simpl.
  - apply Z.leb_le in El.
    destruct (biggest_centroid st) as [c0|].
    + intros (l0 & m0 & Hin & Hl0 & Hbl & Hc0 & Hall).
      rewrite Hbl. simpl.
      destruct (len m0 <=? len c)%Z eqn:E; simpl.
      * apply Z.leb_le in E. exists l, c. repeat split; auto.
        -- apply in_or_app. right. now left.
        -- apply Forall_app. split.
           ++ eapply Forall_impl; [|exact Hall]. intros e He H0.
              specialize (He H0). simpl in *. lia.
           ++ repeat constructor. simpl. lia.
      * apply Z.leb_gt in E. exists l0, m0. repeat split; auto.
        -- apply in_or_app. now left.
        -- apply Forall_app. split; [exact Hall|].
           repeat constructor. simpl. lia.
    + intros [Hbl Hall]. rewrite Hbl. simpl.
      exists l, c. repeat split; auto.
      * apply in_or_app. right. now left.
      * apply Forall_app. split.
        -- eapply Forall_impl; [|exact Hall]. intros e He H0.
           simpl in *. lia.
        -- repeat constructor. simpl. lia.
  - apply Z.leb_gt in El.
    destruct (biggest_centroid st) as [c0|].
    + intros (l0 & m0 & Hin & Hl0 & Hbl & Hc0 & Hall).
      exists l0, m0. repeat split; auto.
      * apply in_or_app. now left.
      * apply Forall_app. split; [exact Hall|].
        repeat constructor. simpl. lia.
    + intros [Hbl Hall]. split; [exact Hbl|].
      apply Forall_app. split; [exact Hall|]. now repeat constructor.
Qed.

Lemma select_fold_inv (rest : dict Z (list (Q * Q))) :
  forall done st,
    selection_inv done st ->
    selection_inv (done ++ rest) (fold_left select_step rest st).
Proof.
  induction rest as [|item rest IH]; simpl; intros done st Hinv.
  - now rewrite app_nil_r.
  - replace (done ++ item :: rest) with ((done ++ [item]) ++ rest)
      by now rewrite <- app_assoc.
    apply IH. now apply select_step_inv.
Qed.

Lemma select_biggest_inv (clusters : dict Z (list (Q * Q))) :
  selection_inv clusters (select_biggest clusters).
Proof.
  apply (select_fold_inv clusters [] (mkSelection [] None None)).
  split; [reflexivity|constructor].
Qed.

Section DominantCluster.
Variable estimate_meters_to_deg : Q -> Q.
Variable DBSCAN : Q -> Z -> list (Q * Q) -> exn + list Z.

(** X9. When the clustering returns one label per point of the extended
    history, [update_location_centroid] returns, with the history extended
    by the new point, and the centroid is: the centroid of all the points
    when every label is negative (noise); otherwise the centroid of the
    points of one non-negative label, one that no other non-negative label
    has more points than. A noise cluster is never chosen, however big. *)
Theorem update_location_centroid_dominant (point : Point)
    (cluster : list Point) (max_distance : Q) (min_samples : Z)
    (labels : list Z) :
  let history := cluster ++ [point] in
  let points := map gen2arr history in
  DBSCAN (estimate_meters_to_deg max_distance) min_samples points
  = inr labels ->
  List.length labels = List.length history ->
  exists c,
    update_location_centroid estimate_meters_to_deg DBSCAN point cluster
      max_distance min_samples
    = inr (c, history)
    /\ ((Forall (fun l => (l < 0)%Z) labels
         /\ c = compute_centroid points)
        \/ (exists l,
              In l labels /\ (0 <= l)%Z
              /\ c = compute_centroid (labelled l labels points)
              /\ forall l', (0 <= l')%Z ->
                   (List.length (labelled l' labels points)
                    <= List.length (labelled l labels points))%nat)).
Proof.
  intros history points Hlabels Hlen.
  unfold update_location_centroid. fold history. fold points.
  rewrite Hlabels.
  destruct (group_labels_get points labels) as (cs & Hg & Hwf & Hget).
  { unfold points. rewrite length_map. lia. }
  rewrite Hg.
  assert (Hkey : forall l, In l labels ->
            In (l, labelled l labels points) cs).
  { intros l Hl. apply zget_In. rewrite Hget.
    assert (Hne : labelled l labels points <> []).
    { apply labelled_In; [|exact Hl].
      unfold points. rewrite length_map. lia. }
    destruct (labelled l labels points); [congruence|reflexivity]. }
  pose proof (select_biggest_inv cs) as Hinv. unfold selection_inv in Hinv.
  destruct (biggest_centroid (select_biggest cs)) as [c|].
  - destruct Hinv as (l & members & Hin & Hl & _ & -> & Hall).
    eexists. split; [reflexivity|]. right.
    assert (Hm : members = labelled l labels points /\ In l labels).
    { apply In_get in Hin; [|exact Hwf]. rewrite Hget in Hin.
      destruct (labelled l labels points) as [|m ms] eqn:E; [discriminate|].
      injection Hin as <-. split; [reflexivity|].
      destruct (in_dec Z.eq_dec l labels) as [Hi|Hi]; [exact Hi|].
      rewrite (labelled_not_In l labels points Hi) in E. discriminate. }
    destruct Hm as [-> Hlin].
    exists l. repeat split; auto.
    intros l' Hl'.
    destruct (in_dec Z.eq_dec l' labels) as [Hi|Hi].
    + rewrite Forall_forall in Hall.
      specialize (Hall _ (Hkey l' Hi) Hl'). unfold len in Hall.
      simpl in Hall. lia.
    + rewrite (labelled_not_In l' labels points Hi). simpl. lia.
  - destruct Hinv as [_ Hall]. eexists. split; [reflexivity|]. left.
    split; [|reflexivity].
    apply Forall_forall. intros l Hl.
    rewrite Forall_forall in Hall. apply (Hall _ (Hkey l Hl)).
Qed.

End DominantCluster.

(** Three visits: [a1] and [a2] form the only cluster, [b1] is noise. *)
Lemma update_location_centroid_dominant_witness :
  exists c,
    update_location_centroid Example.meters_to_deg
      (fun _ _ _ => inr [0; 0; -1]%Z) Example.b1 [Example.a1; Example.a2]
      10 2
    = inr (c, [Example.a1; Example.a2; Example.b1])
    /\ c = compute_centroid [gen2arr Example.a1; gen2arr Example.a2].
Proof.
  destruct (@update_location_centroid_dominant Example.meters_to_deg
              (fun _ _ _ => inr [0; 0; -1]%Z) Example.b1
              [Example.a1; Example.a2] 10 2 [0; 0; -1]%Z eq_refl eq_refl)
    as (c & Hrun & _).
  exists c. split; [exact Hrun|].
  vm_compute in Hrun. now injection Hrun as <-.
Defined.

(* ================================================================== *)
(** * Further properties of sorting *)

Section SortedMore.
Variable A : Type.
Variable key : A -> Q.

Lemma insert_by_Permutation (x : A) (l : list A) :
  Permutation (x :: l) (insert_by key x l).
Proof.
  induction l as [|y l IH]; simpl; [reflexivity|].
  destruct (Qle_bool (key x) (key y)); [reflexivity|].
  rewrite perm_swap. now constructor.
Qed.

(** [sorted] rearranges its items: none is lost, none is added. *)
Lemma sorted_Permutation (l : list A) : Permutation l (sorted key l).
Proof.
  induction l as [|x l IH]; simpl; [constructor|].
  rewrite <- insert_by_Permutation. now constructor.
Qed.

Lemma insert_by_filter (k : Q) (x : A) (l : list A) :
  filter (fun y => Qeq_bool (key y) k) (insert_by key x l)
  = filter (fun y => Qeq_bool (key y) k) (x :: l).
Proof.
  induction l as [|y l IH]; simpl; [reflexivity|].
  destruct (Qle_bool (key x) (key y)) eqn:E; simpl; [reflexivity|].
  simpl in IH. rewrite IH.
  destruct (Qeq_bool (key x) k) eqn:Ex; [|reflexivity].
  destruct (Qeq_bool (key y) k) eqn:Ey; [|reflexivity].
  apply Qeq_bool_iff in Ex. apply Qeq_bool_iff in Ey.
  assert (Hle : Qle_bool (key x) (key y) = true).
  { apply Qle_bool_iff. rewrite Ex, Ey. apply Qle_refl. }
  congruence.
Qed.

(** [sorted] is stable: the items with a given key keep their order. *)
Lemma sorted_stable (k : Q) (l : list A) :
  filter (fun y => Qeq_bool (key y) k) (sorted key l)
  = filter (fun y => Qeq_bool (key y) k) l.
Proof.
  induction l as [|x l IH]; simpl; [reflexivity|].
  rewrite insert_by_filter. simpl. now rewrite IH.
Qed.

(** The first item of an ascending list has the smallest key. *)
Lemma ascending_head_least (x : A) (l : list A) :
  ascending key (x :: l) -> Forall (fun y => (key x <= key y)%Q) (x :: l).
Proof.
  intro H. constructor; [apply Qle_refl|].
  apply Sorted_StronglySorted in H.
  - now inversion H.
  - intros a b c Hab Hbc. eapply Qle_trans; eauto.
Qed.

Lemma sorted_nonempty (l : list A) : l <> [] -> sorted key l <> [].
Proof.
  intros Hne Hs. apply Hne. apply length_zero_iff_nil.
  now rewrite <- (sorted_length key l), Hs.
Qed.

End SortedMore.

(* ================================================================== *)
(** * Further properties of the location resolver *)

Section ResolverMore.
Variable point_distance : Point -> Point -> Q.
Variable requests_get : list Event -> Request -> Response.
Variables Extra J : Type.

Lemma slice_to_nonneg {A} (l : list A) (n : Z) :
  (0 <= n)%Z -> slice_to l n = firstn (Z.to_nat n) l.
Proof. intro H. unfold slice_to. apply Z.leb_le in H. now rewrite H. Qed.

(** X11. When the knowledge base gives more candidates than the limit, and
    the limit is at least 1, no provider is asked and no cache is read: the
    world is left as it was, and the alternatives are the [limit] closest
    knowledge-base candidates in ascending order of distance, the label
    being that of the first. *)
Theorem infer_location_kb_fills_budget point
    (location_query : option (Point -> Q -> list (string * Point * Extra)))
    max_distance use_google google_key use_foursquare foursquare_key limit
    (w : World) :
  let kb := kb_locations point_distance point location_query max_distance in
  (1 <= limit)%Z ->
  (limit < len kb)%Z ->
  exists first rest,
    firstn (Z.to_nat limit) (sorted distance kb) = first :: rest
    /\ infer_location point_distance requests_get (J:=J) point
         location_query max_distance use_google google_key use_foursquare
         foursquare_key limit w
       = (w, inr (Location.Location (label first) (Location.PointObj point)
                    (first :: rest)))
    /\ len (first :: rest) = limit
    /\ ascending distance (first :: rest)
    /\ Forall (fun c => suggestion_type c = KB) (first :: rest).
Proof.
  intros kb Hlim Hlen.
  unfold infer_location, bind. fold kb.
  assert (Hle : (len kb <=? limit)%Z = false) by (apply Z.leb_gt; lia).
  assert (Hpos : (0 <? len kb)%Z = true) by (apply Z.ltb_lt; lia).
  rewrite Hle. simpl. rewrite Hpos, app_nil_r.
  rewrite slice_to_nonneg by lia.
  assert (Hslen : List.length (firstn (Z.to_nat limit) (sorted distance kb))
                  = Z.to_nat limit).
  { rewrite length_firstn, sorted_length. unfold len in Hlen. lia. }
  destruct (firstn (Z.to_nat limit) (sorted distance kb))
    as [|first rest] eqn:Hf.
  - simpl in Hslen. lia.
  - exists first, rest. split; [reflexivity|]. split; [reflexivity|].
    split; [unfold len; rewrite Hslen; lia|]. split.
    + rewrite <- Hf. apply ascending_firstn, sorted_ascending.
    + rewrite <- Hf. apply Forall_forall. intros c Hc.
      apply In_firstn in Hc. apply sorted_In in Hc.
      pose proof (kb_locations_tagged point_distance point location_query
                    max_distance)
        as Hkb.
      rewrite Forall_forall in Hkb. now apply Hkb.
Qed.

(** X12. Whenever [infer_location] returns with knowledge-base candidates,
    the label is that of the first alternative, which is a knowledge-base
    candidate that no other knowledge-base candidate is closer than, even
    when a provider candidate is closer still. *)
Theorem infer_location_label_is_closest_kb point
    (location_query : option (Point -> Q -> list (string * Point * Extra)))
    max_distance use_google google_key use_foursquare foursquare_key limit
    (w w' : World) (loc : Location.t J) :
  let kb := kb_locations point_distance point location_query max_distance in
  kb <> [] ->
  infer_location point_distance requests_get point location_query
    max_distance use_google google_key use_foursquare foursquare_key limit w
  = (w', inr loc) ->
  exists c,
    hd_error (Location.other loc) = Some c
    /\ Location.label loc = label c
    /\ In c kb
    /\ suggestion_type c = KB
    /\ Forall (fun c' => (distance c <= distance c')%Q) kb.
Proof.
  intros kb Hne Hrun. apply infer_location_returns in Hrun.
  destruct Hrun as (api & [[Hkb _]|[_ (first & rest & Hslice & ->)]]);
    [fold kb in Hkb; contradiction|].
  fold kb in Hslice.
  destruct (sorted distance kb) as [|c0 s] eqn:Hs;
    [now apply sorted_nonempty in Hs|].
  assert (Hfirst : first = c0).
  { destruct (slice_to_firstn ((c0 :: s) ++ sorted distance api) limit)
      as [m Hm].
    rewrite Hm in Hslice. destruct m; simpl in Hslice; congruence. }
  subst c0. exists first. simpl.
  assert (Hin : In first kb).
  { apply (sorted_In distance). rewrite Hs. now left. }
  repeat split; auto.
  - pose proof (kb_locations_tagged point_distance point location_query
                    max_distance)
      as Hkb.
    rewrite Forall_forall in Hkb. now apply Hkb.
  - pose proof (sorted_ascending distance kb) as Hasc. rewrite Hs in Hasc.
    apply ascending_head_least in Hasc.
    rewrite Forall_forall in *. intros c' Hc'. apply Hasc.
    rewrite <- Hs. now apply sorted_In.
Qed.

(** Without knowledge-base candidates and with a limit that is not
    negative, the result is the sentinel label with the provider
    candidates, sorted. *)
Lemma infer_location_no_kb point
    (location_query : option (Point -> Q -> list (string * Point * Extra)))
    max_distance use_google google_key use_foursquare foursquare_key limit
    (w w' : World) (api : list Candidate) :
  kb_locations point_distance point location_query max_distance = [] ->
  (0 <= limit)%Z ->
  api_locations_of point_distance requests_get point max_distance
    use_google google_key use_foursquare foursquare_key w
  = (w', inr api) ->
  infer_location point_distance requests_get (J:=J) point location_query
    max_distance use_google google_key use_foursquare foursquare_key limit w
  = (w', inr (Location.Location "#?" (Location.PointObj point)
                (sorted distance api))).
Proof.
  intros Hkb Hlim Hapi. unfold infer_location, bind. rewrite Hkb.
  change (len (@nil Candidate)) with 0%Z.
  apply Z.leb_le in Hlim. rewrite Hlim, Hapi.
  now rewrite sorted_if_nonempty.
Qed.

(** X13. Without knowledge-base candidates the limit does not cut the
    result: for every limit from 0 on, the alternatives are all the
    candidates of the providers, rearranged into ascending order of
    distance, under the label ['#?']. *)
Theorem infer_location_no_kb_untruncated point
    (location_query : option (Point -> Q -> list (string * Point * Extra)))
    max_distance use_google google_key use_foursquare foursquare_key limit
    (w w' : World) (api : list Candidate) :
  kb_locations point_distance point location_query max_distance = [] ->
  (0 <= limit)%Z ->
  api_locations_of point_distance requests_get point max_distance
    use_google google_key use_foursquare foursquare_key w
  = (w', inr api) ->
  exists loc : Location.t J,
    infer_location point_distance requests_get point location_query
      max_distance use_google google_key use_foursquare foursquare_key
      limit w
    = (w', inr loc)
    /\ Location.label loc = "#?"%string
    /\ Location.centroid loc = Location.PointObj point
    /\ Permutation api (Location.other loc)
    /\ List.length (Location.other loc) = List.length api
    /\ ascending distance (Location.other loc).
Proof.
  intros Hkb Hlim Hapi. eexists. split.
  - eapply infer_location_no_kb; eassumption.
  - simpl. repeat split.
    + apply sorted_Permutation.
    + apply sorted_length.
    + apply sorted_ascending.
Qed.

(** X14. Sorting is stable, so candidates at the same distance keep the
    order the providers gave them in, with Google's before Foursquare's:
    when the guarded Google call returns [google_locs] and the guarded
    Foursquare call after it returns [foursquare_locs], the alternatives
    returned without knowledge-base candidates have, at any one distance,
    first the candidates of [google_locs] at that distance in their order,
    then those of [foursquare_locs] in theirs. *)
Theorem infer_location_ties_keep_order point
    (location_query : option (Point -> Q -> list (string * Point * Extra)))
    max_distance use_google google_key use_foursquare foursquare_key limit
    (w w1 w' : World) (google_locs foursquare_locs : list Candidate) :
  kb_locations point_distance point location_query max_distance = [] ->
  (0 <= limit)%Z ->
  (if use_google && truthy_str google_key
   then query_google point_distance requests_get point max_distance
          google_key
   else ret []) w
  = (w1, inr google_locs) ->
  (if use_foursquare && truthy_str foursquare_key
   then query_foursquare point_distance requests_get point max_distance
          foursquare_key
   else ret []) w1
  = (w', inr foursquare_locs) ->
  exists loc : Location.t J,
    infer_location point_distance requests_get point location_query
      max_distance use_google google_key use_foursquare foursquare_key
      limit w
    = (w', inr loc)
    /\ forall d : Q,
         filter (fun c => Qeq_bool (distance c) d) (Location.other loc)
         = filter (fun c => Qeq_bool (distance c) d) google_locs
           ++ filter (fun c => Qeq_bool (distance c) d) foursquare_locs.
Proof.
  intros Hkb Hlim Hg Hf.
  assert (Hapi : api_locations_of point_distance requests_get point
                   max_distance use_google google_key use_foursquare
                   foursquare_key w
                 = (w', inr (google_locs ++ foursquare_locs))).
  { unfold api_locations_of, bind. now rewrite Hg, Hf. }
  eexists. split.
  - eapply infer_location_no_kb; eassumption.
  - intro d. simpl. now rewrite sorted_stable, filter_app.
Qed.

(** X15. A limit below the number of knowledge-base candidates, a
    negative limit included, keeps the providers out: whether the call
    returns or raises, the world is left as it was (no cache look-up, no
    request, no cache entry), the only exception is IndexError, and every
    alternative returned is a knowledge-base candidate. *)
Theorem infer_location_below_budget_is_local point
    (location_query : option (Point -> Q -> list (string * Point * Extra)))
    max_distance use_google google_key use_foursquare foursquare_key limit
    (w : World) :
  (limit
   < len (kb_locations point_distance point location_query max_distance))%Z ->
  exists r,
    infer_location point_distance requests_get (J:=J) point location_query
      max_distance use_google google_key use_foursquare foursquare_key
      limit w
    = (w, r)
    /\ (r = inl IndexError
        \/ exists loc,
             r = inr loc
             /\ Forall (fun c => suggestion_type c = KB)
                  (Location.other loc)).
Proof.
  intro Hlim. unfold infer_location, bind.
  set (kb := kb_locations point_distance point location_query max_distance)
    in *.
  assert (Hle : (len kb <=? limit)%Z = false) by (apply Z.leb_gt; lia).
  rewrite Hle. simpl. rewrite app_nil_r.
  destruct (0 <? len kb)%Z eqn:Hpos.
  - destruct (slice_to (sorted distance kb) limit) as [|first rest] eqn:Hs;
      simpl.
    + eexists. split; [reflexivity|]. now left.
    + eexists. split; [reflexivity|]. right. eexists.
      split; [reflexivity|]. simpl. rewrite <- Hs.
      destruct (slice_to_firstn (sorted distance kb) limit) as [m ->].
      apply Forall_forall. intros c Hc.
      apply In_firstn in Hc. apply sorted_In in Hc.
      pose proof (kb_locations_tagged point_distance point location_query
                    max_distance)
        as Hkb.
      rewrite Forall_forall in Hkb. now apply Hkb.
  - eexists. split; [reflexivity|]. right. eexists.
    split; [reflexivity|]. constructor.
Qed.

(** X16. With at least one knowledge-base candidate, a limit of 1 or more
    and providers that do not raise, [infer_location] returns, and the
    number of alternatives is at least 1 and at most the limit. *)
Theorem infer_location_returns_within_limit point
    (location_query : option (Point -> Q -> list (string * Point * Extra)))
    max_distance use_google google_key use_foursquare foursquare_key limit
    (w : World) :
  kb_locations point_distance point location_query max_distance <> [] ->
  (1 <= limit)%Z ->
  (forall e,
     snd (api_locations_of point_distance requests_get point max_distance
            use_google google_key use_foursquare foursquare_key w)
     <> inl e) ->
  exists w' (loc : Location.t J),
    infer_location point_distance requests_get point location_query
      max_distance use_google google_key use_foursquare foursquare_key
      limit w
    = (w', inr loc)
    /\ (1 <= len (Location.other loc) <= limit)%Z.
Proof.
  intros Hne Hlim Hok. unfold infer_location, bind.
  set (kb := kb_locations point_distance point location_query max_distance)
    in *.
  assert (Hpos : (0 <? len kb)%Z = true) by now apply len_pos_iff.
  assert (Hapi : exists w1 api,
    (if (len kb <=? limit)%Z
     then api_locations_of point_distance requests_get point max_distance
            use_google google_key use_foursquare foursquare_key
     else ret []) w = (w1, inr api)).
  { destruct (len kb <=? limit)%Z; [|now exists w, []].
    destruct (api_locations_of point_distance requests_get point
                max_distance use_google google_key use_foursquare
                foursquare_key w) as [w1 [e|api]].
    - exfalso. now apply (Hok e).
    - now exists w1, api. }
  destruct Hapi as (w1 & api & ->).
  rewrite sorted_if_nonempty, Hpos, slice_to_nonneg by lia.
  destruct (sorted distance kb) as [|c0 s] eqn:Hs;
    [now apply sorted_nonempty in Hs|].
  destruct (Z.to_nat limit) as [|n] eqn:Hn; [lia|].
  simpl. eexists. eexists. split; [reflexivity|].
  simpl. unfold len. simpl List.length.
  pose proof (firstn_le_length n (s ++ sorted distance api)). lia.
Qed.

(** X17. An exception in the Google adapter is not caught: when the
    providers are to be asked and Google's adapter raises,
    [infer_location] raises the same exception in the world the adapter
    left, so the knowledge-base candidates are not returned and Foursquare
    is not asked. *)
Theorem infer_location_google_raises point
    (location_query : option (Point -> Q -> list (string * Point * Extra)))
    max_distance google_key use_foursquare foursquare_key limit
    (w w1 : World) (e : exn) :
  (len (kb_locations point_distance point location_query max_distance)
   <= limit)%Z ->
  truthy_str google_key = true ->
  query_google point_distance requests_get point max_distance google_key w
  = (w1, inl e) ->
  infer_location point_distance requests_get (J:=J) point location_query
    max_distance true google_key use_foursquare foursquare_key limit w
  = (w1, inl e).
Proof.
  intros Hlen Hkey Hq. unfold infer_location, api_locations_of, bind.
  apply Z.leb_le in Hlen. rewrite Hlen, Hkey. simpl. now rewrite Hq.
Qed.

(** X18. A [Location] returned by [infer_location] has the query point as
    its centroid, so [to_json] succeeds on it, with the label, the point's
    JSON form and the alternatives, and [distance] measures from the query
    point. *)
Theorem infer_location_to_json (Point_to_json : Point -> J) point
    (location_query : option (Point -> Q -> list (string * Point * Extra)))
    max_distance use_google google_key use_foursquare foursquare_key limit
    (w w' : World) (loc : Location.t J) :
  infer_location point_distance requests_get point location_query
    max_distance use_google google_key use_foursquare foursquare_key limit w
  = (w', inr loc) ->
  Location.centroid loc = Location.PointObj point
  /\ Location.to_json Point_to_json loc
     = inr (Location.mkJson (Location.label loc) (Point_to_json point)
              (Location.other loc))
  /\ (forall q,
        Location.distance point_distance loc q
        = inr (point_distance point q)).
Proof.
  intro Hrun. apply infer_location_returns in Hrun.
  destruct Hrun as (api & [[_ ->]|[_ (first & rest & _ & ->)]]);
    repeat split.
Qed.

End ResolverMore.

(* ================================================================== *)
(** * The further properties on concrete inputs *)

Lemma flat_distance_nonneg (p q : Point) :
  (0 <= Example.flat_distance p q)%Q.
Proof.
  unfold Example.flat_distance.
  apply Qmult_le_0_compat; [discriminate|].
  replace 0%Q with (0 + 0)%Q by reflexivity.
  apply Qplus_le_compat; apply Qabs_nonneg.
Qed.

(** A 200 response without a result list. *)
Lemma query_malformed_response_witness :
  query Example.flat_distance Example.garbled Google Example.origin 10
    Example.api_key Example.empty_world
  = (mkWorld [] []
       [EvCacheLookup Google Example.origin 10;
        EvGet (request_of Google Example.origin 10 Example.api_key)],
     inl PayloadError).
Proof.
  apply (@query_malformed_response Example.flat_distance Example.garbled
           Google Example.origin 10 Example.api_key Example.empty_world
           eq_refl eq_refl eq_refl).
  left. reflexivity.
Defined.

(** Google is asked once for the origin; the second call is answered from
    the cache. *)
Lemma query_again_is_cached_witness :
  let w1 :=
    fst (query Example.flat_distance Example.online Google Example.origin
           10 Example.api_key Example.empty_world) in
  map label
    (match snd (query Example.flat_distance Example.online Google
                  Example.origin 10 Example.api_key w1) with
     | inr cs => cs
     | inl _ => []
     end)
  = ["Cafe"%string]
  /\ requests_in (trace w1)
     = [request_of Google Example.origin 10 Example.api_key].
Proof.
  intro w1.
  destruct (@query_again_is_cached Example.flat_distance Example.online
              Google Example.origin 10 Example.api_key Example.empty_world
              [GooglePlace "Cafe" (5 # 100000) 0 ["cafe"%string]]
              [mkCandidate "Cafe"
                 (Example.flat_distance (mkPoint (5 # 100000) 0 None)
                    Example.origin)
                 (Some ["cafe"%string]) GOOGLE])
    as [Hrun Hreq]; try reflexivity.
  - constructor.
  - intros k' Hk'. now apply flat_distance_proper.
  - discriminate.
  - fold w1 in Hrun, Hreq. rewrite Hrun. split; [reflexivity|exact Hreq].
Defined.

(** An empty list cached 1 m from the origin: a call for the origin sends
    a request, caches the answer under the origin, and the look-up still
    ends on the empty list. *)
Lemma query_stale_empty_entry_witness :
  let w' :=
    fst (query Example.flat_distance Example.online Google Example.origin
           10 Example.api_key Example.world_stale) in
  requests_in (trace w')
  = [request_of Google Example.origin 10 Example.api_key]
  /\ from_cache Example.flat_distance (GG_CACHE w') Example.origin 10
     = Some [].
Proof.
  apply (@query_stale_empty_entry Example.flat_distance Example.online
           Google Example.origin 10 Example.api_key Example.world_stale
           [] [] (Example.north 1)); try reflexivity.
  constructor.
Defined.

(** Radius 0 with a point cached 1 m away. *)
Lemma query_nonpositive_radius_witness :
  from_cache Example.flat_distance (GG_CACHE Example.world_near)
    Example.origin 0
  = None
  /\ requests_in
       (trace (fst (query Example.flat_distance Example.online Google
                      Example.origin 0 Example.api_key Example.world_near)))
     = [request_of Google Example.origin 0 Example.api_key].
Proof.
  apply (@query_nonpositive_radius Example.flat_distance Example.online
           Google Example.origin 0 Example.api_key Example.world_near).
  - intro k. apply flat_distance_nonneg.
  - discriminate.
  - reflexivity.
Defined.

(** Both caches empty: what Foursquare's adapter returns and caches is
    tagged FOURSQUARE. *)
Lemma query_keeps_tags_witness :
  let run :=
    query Example.flat_distance Example.online Foursquare Example.origin 10
      Example.api_key Example.empty_world in
  cache_tagged Foursquare (FS_CACHE (fst run))
  /\ snd run = inr [mkCandidate "Gym" 30 (Some ["Gym"%string]) FOURSQUARE].
Proof.
  intro run.
  destruct (@query_keeps_tags Example.flat_distance Example.online
              Foursquare Example.origin 10 Example.api_key
              Example.empty_world) as [Hcache _].
  - constructor.
  - split; [exact Hcache|reflexivity].
Defined.

(** Four points labelled [0; 0; 1; 1]. *)
Lemma group_labels_partition_witness :
  exists clusters,
    group_labels
      (map gen2arr [Example.a1; Example.a2; Example.b1; Example.b2])
      [0; 0; 1; 1]%Z
    = inr clusters
    /\ get Z.eqb 1%Z clusters
       = Some [gen2arr Example.b1; gen2arr Example.b2]
    /\ get Z.eqb (-1)%Z clusters = None.
Proof.
  destruct (@group_labels_partition
              (map gen2arr [Example.a1; Example.a2; Example.b1; Example.b2])
              [0; 0; 1; 1]%Z) as (cs & Hg & _ & Hin & Hout & _).
  - simpl. lia.
  - exists cs. split; [exact Hg|]. split.
    + apply (Hin 1%Z). simpl. tauto.
    + apply Hout. simpl. intros [H|[H|[H|[H|[]]]]]; discriminate H.
Defined.

(** Two knowledge-base places and limit 1: only "Home" is returned and the
    world is untouched. *)
Lemma infer_location_kb_fills_budget_witness :
  exists first,
    infer_location Example.flat_distance Example.online (J:=unit)
      Example.origin (Some Example.knowledge_base) 100 true Example.api_key
      true Example.api_key 1 Example.empty_world
    = (Example.empty_world,
       inr (Location.Location (label first)
              (Location.PointObj Example.origin) [first]))
    /\ label first = "Home"%string.
Proof.
  destruct (@infer_location_kb_fills_budget Example.flat_distance
              Example.online unit unit Example.origin
              (Some Example.knowledge_base) 100 true Example.api_key true
              Example.api_key 1 Example.empty_world)
    as (first & rest & Hf & Hrun & _); [lia|reflexivity|].
  vm_compute in Hf. injection Hf as <- <-.
  eexists. split; [exact Hrun|reflexivity].
Defined.

(** The label is "Home", 10 m away, although the "Cafe" of Google is at
    5 m. *)
Lemma infer_location_label_is_closest_kb_witness :
  exists w' loc c,
    infer_location Example.flat_distance Example.online (J:=unit)
      Example.origin (Some Example.knowledge_base) 100 true Example.api_key
      true Example.api_key 3 Example.empty_world
    = (w', inr loc)
    /\ Location.label loc = label c
    /\ In c (kb_locations Example.flat_distance Example.origin
               (Some Example.knowledge_base) 100)
    /\ Forall (fun c' => (distance c <= distance c')%Q)
         (kb_locations Example.flat_distance Example.origin
            (Some Example.knowledge_base) 100).
Proof.
  destruct (infer_location Example.flat_distance Example.online (J:=unit)
              Example.origin (Some Example.knowledge_base) 100 true
              Example.api_key true Example.api_key 3 Example.empty_world)
    as [w' [e|loc]] eqn:Hrun; [vm_compute in Hrun; discriminate Hrun|].
  destruct (@infer_location_label_is_closest_kb Example.flat_distance
              Example.online unit unit Example.origin
              (Some Example.knowledge_base) 100 true Example.api_key true
              Example.api_key 3 Example.empty_world w' loc)
    as (c & _ & Hl & Hin & _ & Hmin); [discriminate|exact Hrun|].
  exists w', loc, c. repeat split; assumption.
Defined.

(** No knowledge base and limit 1: both provider candidates are
    returned. *)
Lemma infer_location_no_kb_untruncated_witness :
  exists w' (loc : Location.t unit),
    infer_location Example.flat_distance Example.online (Extra:=unit)
      Example.origin None 100 true Example.api_key true Example.api_key 1
      Example.empty_world
    = (w', inr loc)
    /\ Location.label loc = "#?"%string
    /\ List.length (Location.other loc) = 2%nat.
Proof.
  destruct (api_locations_of Example.flat_distance Example.online
              Example.origin 100 true Example.api_key true Example.api_key
              Example.empty_world) as [w' [e|api]] eqn:Hapi;
    [vm_compute in Hapi; discriminate Hapi|].
  destruct (@infer_location_no_kb_untruncated Example.flat_distance
              Example.online unit unit Example.origin None 100 true
              Example.api_key true Example.api_key 1 Example.empty_world
              w' api) as (loc & Hrun & Hl & _ & _ & Hlen & _);
    [reflexivity|lia|exact Hapi|].
  exists w', loc. repeat split; auto.
  rewrite Hlen. vm_compute in Hapi. now inversion Hapi.
Defined.

(** No knowledge base; Google gives a place at 30 m and then one at 5 m,
    Foursquare one at 30 m and then one at 5 m. At 30 m the alternatives
    are Google's "Bakery", then Foursquare's "Gym"; at 5 m Google's "Cafe",
    then Foursquare's "Kiosk". *)
Lemma infer_location_ties_keep_order_witness :
  exists w' (loc : Location.t unit),
    infer_location Example.flat_distance Example.online_ties (Extra:=unit)
      Example.origin None 100 true Example.api_key true Example.api_key 1
      Example.empty_world
    = (w', inr loc)
    /\ map label (Location.other loc)
       = ["Cafe"; "Kiosk"; "Bakery"; "Gym"]%string
    /\ map label
         (filter (fun c => Qeq_bool (distance c) 30) (Location.other loc))
       = ["Bakery"; "Gym"]%string
    /\ map label
         (filter (fun c => Qeq_bool (distance c) 5) (Location.other loc))
       = ["Cafe"; "Kiosk"]%string.
Proof.
  destruct (query_google Example.flat_distance Example.online_ties
              Example.origin 100 Example.api_key Example.empty_world)
    as [w1 [e|g]] eqn:Hg; [vm_compute in Hg; discriminate Hg|].
  destruct (query_foursquare Example.flat_distance Example.online_ties
              Example.origin 100 Example.api_key w1)
    as [w' [e|f]] eqn:Hf;
    [vm_compute in Hg; inversion Hg; subst; vm_compute in Hf;
     discriminate Hf|].
  destruct (@infer_location_ties_keep_order Example.flat_distance
              Example.online_ties unit unit Example.origin None 100 true
              Example.api_key true Example.api_key 1 Example.empty_world
              w1 w' g f) as (loc & Hrun & Hties);
    [reflexivity|lia|exact Hg|exact Hf|].
  exists w', loc. split; [exact Hrun|].
  rewrite !Hties.
  vm_compute in Hg. inversion Hg; subst.
  vm_compute in Hf. inversion Hf; subst.
  vm_compute in Hrun. inversion Hrun; subst.
  repeat split.
Defined.

(** Two knowledge-base places and limit -1: the farther one is dropped and
    no provider is asked. *)
Lemma infer_location_below_budget_is_local_witness :
  exists r,
    infer_location Example.flat_distance Example.online (J:=unit)
      Example.origin (Some Example.knowledge_base) 100 true Example.api_key
      true Example.api_key (-1) Example.empty_world
    = (Example.empty_world, r)
    /\ (r = inl IndexError
        \/ exists loc,
             r = inr loc
             /\ Forall (fun c => suggestion_type c = KB)
                  (Location.other loc)).
Proof.
  apply (@infer_location_below_budget_is_local Example.flat_distance
           Example.online unit unit Example.origin
           (Some Example.knowledge_base) 100 true Example.api_key true
           Example.api_key (-1) Example.empty_world).
  reflexivity.
Defined.

(** Two knowledge-base places, two provider candidates and limit 3. *)
Lemma infer_location_returns_within_limit_witness :
  exists w' (loc : Location.t unit),
    infer_location Example.flat_distance Example.online Example.origin
      (Some Example.knowledge_base) 100 true Example.api_key true
      Example.api_key 3 Example.empty_world
    = (w', inr loc)
    /\ (1 <= len (Location.other loc) <= 3)%Z.
Proof.
  apply (@infer_location_returns_within_limit Example.flat_distance
           Example.online unit unit Example.origin
           (Some Example.knowledge_base) 100 true Example.api_key true
           Example.api_key 3 Example.empty_world).
  - discriminate.
  - lia.
  - intros e H. vm_compute in H. discriminate H.
Defined.

(** Google answers 200 without a result list: the call raises although the
    knowledge base has two places. *)
Lemma infer_location_google_raises_witness :
  infer_location Example.flat_distance Example.garbled (J:=unit)
    Example.origin (Some Example.knowledge_base) 100 true Example.api_key
    true Example.api_key 3 Example.empty_world
  = (mkWorld [] []
       [EvCacheLookup Google Example.origin 100;
        EvGet (request_of Google Example.origin 100 Example.api_key)],
     inl PayloadError).
Proof.
  apply (@infer_location_google_raises Example.flat_distance
           Example.garbled unit unit Example.origin
           (Some Example.knowledge_base) 100 Example.api_key true
           Example.api_key 3 Example.empty_world).
  - vm_compute. discriminate.
  - reflexivity.
  - reflexivity.
Defined.

(** The result for two knowledge-base places and limit 1, serialised. *)
Lemma infer_location_to_json_witness :
  exists w' (loc : Location.t unit),
    infer_location Example.flat_distance Example.online Example.origin
      (Some Example.knowledge_base) 100 true Example.api_key true
      Example.api_key 1 Example.empty_world
    = (w', inr loc)
    /\ Location.to_json (fun _ => tt) loc
       = inr (Location.mkJson (Location.label loc) tt (Location.other loc)).
Proof.
  destruct (infer_location Example.flat_distance Example.online (J:=unit)
              Example.origin (Some Example.knowledge_base) 100 true
              Example.api_key true Example.api_key 1 Example.empty_world)
    as [w' [e|loc]] eqn:Hrun; [vm_compute in Hrun; discriminate Hrun|].
  exists w', loc. split; [reflexivity|].
  apply (@infer_location_to_json Example.flat_distance Example.online unit
           unit (fun _ => tt) Example.origin (Some Example.knowledge_base)
           100 true Example.api_key true Example.api_key 1
           Example.empty_world w' loc Hrun).
Defined.

(* ================================================================== *)
(** * The caches across a whole resolution *)

Section ResolverCaches.
Variable point_distance : Point -> Point -> Q.
Variable requests_get : list Event -> Request -> Response.
Variables Extra J : Type.

Lemma query_caches_wf prov point max_distance key w :
  caches_wf w ->
  caches_wf
    (fst (query point_distance requests_get prov point max_distance key w)).
Proof.
  intros [Hg Hf]. rewrite query_unfold.
  destruct (truthy_str key); simpl; [|now split].
  destruct (truthy_list _); simpl; [now split|].
  destruct (negb _); [now split|].
  destruct (results _) as [rs|]; [|now split].
  destruct (normalise point_distance prov point rs) as [e|cs];
    [now split|].
  destruct prov; simpl; split; simpl; auto;
    apply wf_set; auto using point_eqb_sym.
Qed.

Lemma api_locations_of_caches_wf point max_distance use_google google_key
    use_foursquare foursquare_key w :
  caches_wf w ->
  caches_wf
    (fst (api_locations_of point_distance requests_get point max_distance
            use_google google_key use_foursquare foursquare_key w)).
Proof.
  intro Hw. unfold api_locations_of, bind.
  assert (Hg : caches_wf
    (fst ((if use_google && truthy_str google_key
           then query_google point_distance requests_get point max_distance
                  google_key
           else ret []) w))).
  { destruct (use_google && truthy_str google_key); [|exact Hw].
    apply (query_caches_wf Google point max_distance google_key Hw). }
  destruct ((if use_google && truthy_str google_key
             then query_google point_distance requests_get point
                    max_distance google_key
             else ret []) w) as [w1 [e|g]]; simpl in *; [exact Hg|].
  assert (Hf : caches_wf
    (fst ((if use_foursquare && truthy_str foursquare_key
           then query_foursquare point_distance requests_get point
                  max_distance foursquare_key
           else ret []) w1))).
  { destruct (use_foursquare && truthy_str foursquare_key); [|exact Hg].
    apply (query_caches_wf Foursquare point max_distance foursquare_key
             Hg). }
  destruct ((if use_foursquare && truthy_str foursquare_key
             then query_foursquare point_distance requests_get point
                    max_distance foursquare_key
             else ret []) w1) as [w2 [e|f]]; simpl in *; exact Hf.
Qed.

(** X19. The dict invariant holds across a whole resolution: if the keys of
    each cache are pairwise different before [infer_location], they are
    after it, whether it returns or raises. *)
Theorem infer_location_keeps_caches_wf point
    (location_query : option (Point -> Q -> list (string * Point * Extra)))
    max_distance use_google google_key use_foursquare foursquare_key limit
    (w : World) :
  wf point_eqb (GG_CACHE w) = true ->
  wf point_eqb (FS_CACHE w) = true ->
  let w' :=
    fst (infer_location point_distance requests_get (J:=J) point
           location_query max_distance use_google google_key use_foursquare
           foursquare_key limit w) in
  wf point_eqb (GG_CACHE w') = true /\ wf point_eqb (FS_CACHE w') = true.
Proof.
  intros Hg Hf w'. subst w'. unfold infer_location, bind.
  assert (Hapi : caches_wf
    (fst ((if (len (kb_locations point_distance point location_query
                      max_distance) <=? limit)%Z
           then api_locations_of point_distance requests_get point
                  max_distance use_google google_key use_foursquare
                  foursquare_key
           else ret []) w))).
  { destruct (_ <=? limit)%Z; [|now split].
    apply api_locations_of_caches_wf. now split. }
  destruct ((if (len (kb_locations point_distance point location_query
                        max_distance) <=? limit)%Z
             then api_locations_of point_distance requests_get point
                    max_distance use_google google_key use_foursquare
                    foursquare_key
             else ret []) w) as [w1 [e|api]]; simpl in *; [exact Hapi|].
  destruct (0 <? _)%Z; [|exact Hapi].
  destruct (slice_to _ limit); simpl; exact Hapi.
Qed.

(** X20. With each provider switched off or without a key, a resolution
    stays local whatever the limit and the knowledge base: the world after
    [infer_location] is the world before it, and the only exception it can
    raise is IndexError. *)
Theorem infer_location_providers_off_is_local point
    (location_query : option (Point -> Q -> list (string * Point * Extra)))
    max_distance use_google google_key use_foursquare foursquare_key limit
    (w : World) :
  use_google && truthy_str google_key = false ->
  use_foursquare && truthy_str foursquare_key = false ->
  exists r,
    infer_location point_distance requests_get (J:=J) point location_query
      max_distance use_google google_key use_foursquare foursquare_key
      limit w
    = (w, r)
    /\ (r = inl IndexError
        \/ exists loc,
             r = inr loc
             /\ Forall (fun c => suggestion_type c = KB)
                  (Location.other loc)).
Proof.
  intros Hg Hf. unfold infer_location, api_locations_of, bind.
  rewrite Hg, Hf.
  set (kb := kb_locations point_distance point location_query max_distance).
  unfold ret. simpl.
  destruct (len kb <=? limit)%Z; simpl; rewrite app_nil_r;
    (destruct (0 <? len kb)%Z;
     [|eexists; split; [reflexivity|]; right; eexists;
       split; [reflexivity|constructor]]);
    (destruct (slice_to (sorted distance kb) limit) as [|first rest] eqn:Hs;
     simpl;
     [eexists; split; [reflexivity|]; now left|]);
    (eexists; split; [reflexivity|]; right; eexists;
     split; [reflexivity|]); simpl; rewrite <- Hs;
    destruct (slice_to_firstn (sorted distance kb) limit) as [m ->];
    apply Forall_forall; intros c Hc;
    apply In_firstn in Hc; apply sorted_In in Hc;
    pose proof (kb_locations_tagged point_distance point location_query
                  max_distance) as Hkb;
    rewrite Forall_forall in Hkb; now apply Hkb.
Qed.

End ResolverCaches.

(** After a resolution that stored one list in each cache. *)
Lemma infer_location_keeps_caches_wf_witness :
  let w' :=
    fst (infer_location Example.flat_distance Example.online (J:=unit)
           Example.origin (Some Example.knowledge_base) 100 true
           Example.api_key true Example.api_key 3 Example.world_near) in
  wf point_eqb (GG_CACHE w') = true /\ wf point_eqb (FS_CACHE w') = true.
Proof.
  apply (@infer_location_keeps_caches_wf Example.flat_distance
           Example.online unit unit Example.origin
           (Some Example.knowledge_base) 100 true Example.api_key true
           Example.api_key 3 Example.world_near); reflexivity.
Defined.

(** Google switched off and no Foursquare key. *)
Lemma infer_location_providers_off_is_local_witness :
  exists r,
    infer_location Example.flat_distance Example.online (J:=unit)
      Example.origin (Some Example.knowledge_base) 100 false
      Example.api_key true None 3 Example.world_near
    = (Example.world_near, r)
    /\ (r = inl IndexError
        \/ exists loc,
             r = inr loc
             /\ Forall (fun c => suggestion_type c = KB)
                  (Location.other loc)).
Proof.
  apply (@infer_location_providers_off_is_local Example.flat_distance
           Example.online unit unit Example.origin
           (Some Example.knowledge_base) 100 false Example.api_key true
           None 3 Example.world_near); reflexivity.
Defined.
